(** * seqra: the containerised task runner

    A shallow embedding of the Go sources of the runner:
    - [log.DisplayInteractiveProgress]  (pull-progress rendering loop),
    - [utils.ExtractTar] and its three handlers (archive extraction),
    - [container_run.RunGhcrContainer], [CopyToContainer] and
      [CopyFileFromContainer] (the orchestrator).

    The Docker daemon, the host file system and the Go runtime are the
    environment: every call into them is an event of a trace, answered by
    an arbitrary stateful host. *)

From Stdlib Require Import ZArith List String Ascii Bool Lia.
From stdpp Require Import base option list gmap strings pretty.
Import ListNotations.
Local Open Scope string_scope.
Local Open Scope list_scope.

(** Go [error] values, identified by their message. *)
Definition error := string.

(* ===================================================================== *)
(** ** Pull progress: [DisplayInteractiveProgress]                        *)
(* ===================================================================== *)

Module Progress.

(** The anonymous struct the loop decodes into; [progressDetail] is decoded
    but never read. *)
Record progress := mkProgress {
  Status : string;
  ProgressText : string;   (* field [Progress] *)
  ID : string
}.

(** What the bytes of the reader look like to [json.Decoder], one item per
    [Decode] call that consumes input. *)
Inductive Chunk :=
| Message (p : progress)   (* a JSON value that unmarshals into the struct *)
| Mismatch (e : error)     (* a complete JSON value the struct rejects *)
| Garbage (e : error)      (* bytes that are no JSON value: syntax error *)
| Truncated.               (* the reader ends inside a value *)

Inductive DecodeResult :=
| Decoded (p : progress)
| EOF                      (* io.EOF *)
| DecodeErr (e : error).   (* any other error *)

(** [json.Decoder]: the unread input and the error field [dec.err].
    [Decode] returns [dec.err] when it is set; a syntax error and a reader
    error (io.EOF, io.ErrUnexpectedEOF) are stored in it, an unmarshal
    error is not. *)
Record Decoder := mkDecoder {
  input : list Chunk;
  err : option DecodeResult
}.

Definition NewDecoder (rd : list Chunk) : Decoder := mkDecoder rd None.

Definition Decode (dec : Decoder) : DecodeResult * Decoder :=
  match err dec with
  | Some e => (e, dec)
  | None =>
    match input dec with
    | [] => (EOF, mkDecoder [] (Some EOF))
    | Message p :: rest => (Decoded p, mkDecoder rest None)
    | Mismatch e :: rest => (DecodeErr e, mkDecoder rest None)
    | Garbage e :: rest => (DecodeErr e, mkDecoder rest (Some (DecodeErr e)))
    | Truncated :: rest =>
        (DecodeErr "unexpected EOF", mkDecoder rest (Some (DecodeErr "unexpected EOF")))
    end
  end.

(** The loop's variables; [stdout] collects what was printed. *)
Record Screen := mkScreen {
  layers : gmap string string;
  layerOrder : list string;
  outputLines : nat;
  stdout : list string
}.

Definition ESC : string := String (ascii_of_nat 27) EmptyString.
Definition NL : string := String (ascii_of_nat 10) EmptyString.

(** [strings.Count(s, "\n")] *)
Fixpoint count_newlines (s : string) : nat :=
  match s with
  | EmptyString => 0
  | String c s' => (if Ascii.eqb c (ascii_of_nat 10) then 1 else 0) + count_newlines s'
  end.

(** The block guarded by [outputLines > 0]: cursor up, clear each line,
    cursor up again. *)
Definition erase (n : nat) : list string :=
  match n with
  | 0 => []
  | _ => [ESC +:+ "[" +:+ pretty n +:+ "A"]
           ++ repeat (ESC +:+ "[K" +:+ NL) n
           ++ [ESC +:+ "[" +:+ pretty n +:+ "A"]
  end.

(** The final [for _, id := range layerOrder]: prints every layer that is
    in the map and counts the lines printed. *)
Fixpoint redraw (m : gmap string string) (order : list string) : list string * nat :=
  match order with
  | [] => ([], 0)
  | id :: rest =>
    let '(out, n) := redraw m rest in
    match m !! id with
    | Some status => ((status +:+ NL) :: out, count_newlines status + 1 + n)
    | None => (out, n)
    end
  end.

(** One iteration of the loop body after a successful [Decode]. *)
Definition render (p : progress) (sc : Screen) : Screen :=
  let '(m, order) :=
    if String.eqb (ID p) "" then
      (<["message_" +:+ Status p := Status p]> (layers sc),
       layerOrder sc ++ ["message_" +:+ Status p])
    else
      let order :=
        match layers sc !! ID p with
        | Some _ => layerOrder sc
        | None => layerOrder sc ++ [ID p]
        end in
      if String.eqb (ProgressText p) "" then
        (<[ID p := ID p +:+ ": " +:+ Status p]> (layers sc), order)
      else
        (<[ID p := ID p +:+ ": " +:+ Status p +:+ " " +:+ ProgressText p]> (layers sc), order)
  in
  let '(out, n) := redraw m order in
  mkScreen m order n (stdout sc ++ erase (outputLines sc) ++ out).

(** The [for] loop; [None] when [fuel] iterations were not enough to leave
    it. *)
Fixpoint loop (fuel : nat) (dec : Decoder) (sc : Screen) : option Screen :=
  match fuel with
  | 0 => None
  | S fuel' =>
    match Decode dec with
    | (EOF, _) => Some sc                             (* break *)
    | (DecodeErr _, dec') => loop fuel' dec' sc       (* continue *)
    | (Decoded p, dec') => loop fuel' dec' (render p sc)
    end
  end.

Definition DisplayInteractiveProgress (fuel : nat) (rd : list Chunk) : option (list string) :=
  match loop fuel (NewDecoder rd) (mkScreen ∅ [] 0 []) with
  | Some sc => Some (stdout sc ++ erase (outputLines sc))
  | None => None
  end.

(** Chunks after which [Decode] keeps answering the same error. *)
Definition latches (c : Chunk) : bool :=
  match c with
  | Garbage _ | Truncated => true
  | Message _ | Mismatch _ => false
  end.

End Progress.

(* ===================================================================== *)
(** ** The environment of the runner                                      *)
(* ===================================================================== *)

(** A Go result pair [(value, err)]. *)
Inductive result (A : Type) :=
| Ok (a : A)
| Err (e : error).
Arguments Ok {A} a.
Arguments Err {A} e.

(** logrus levels below Fatal. *)
Inductive Level := TraceLevel | DebugLevel | InfoLevel | WarnLevel | ErrorLevel.

(** [registry.AuthConfig], the two fields the runner fills in. *)
Record AuthConfig := mkAuthConfig { Username : string; Password : string }.

(** [container.Config] as the runner builds it. *)
Record Config := mkConfig {
  Image : string;
  Cmd : list string;
  Env : list string;
  OpenStdin : bool;
  AttachStdout : bool;
  AttachStderr : bool
}.

(** [container.HostConfig]: handed to the daemon unread. *)
Inductive HostConfig := mkHostConfig (settings : list (string * string)).

(** The part of [image.InspectResponse] that is logged. *)
Record ImageInspect := mkImageInspect {
  Os : string;
  Architecture : string;
  RepoTags : list string;
  RepoDigests : list string
}.

(** [inspect.State] of a container. *)
Record ContainerState := mkContainerState { StartedAt : string; FinishedAt : string }.

(** The [select] over the two channels of [ContainerWait]: which one fired,
    and with what. *)
Inductive WaitResult :=
| FromErrCh (e : option error)
| FromStatusCh (StatusCode : Z).

(** [container.PathStat] *)
Record PathStat := mkPathStat { StatName : string; IsDir : bool }.

(** [tar.Header] *)
Record Header := mkHeader {
  Name : string;
  Typeflag : ascii;
  Mode : Z;
  Linkname : string
}.

Definition TypeReg : ascii := "0"%char.
Definition TypeSymlink : ascii := "2"%char.
Definition TypeDir : ascii := "5"%char.
Definition TypeXGlobalHeader : ascii := "g"%char.

(** What [tr.Next()] yields, in order; the end of the list is io.EOF. *)
Inductive TarItem :=
| Entry (hdr : Header) (content : string)
| Corrupt (e : error).

(** Every call that leaves the program, indexed by the type of its answer.
    [option error] is a Go [error]: [None] is nil. *)
Inductive Call : Type -> Type :=
| os_Stat (name : string) : Call (option error)
| os_MkdirAll (path : string) (perm : Z) : Call (option error)
| os_Create (name : string) : Call (option error)
| io_Copy (dst : string) (content : string) : Call (option error)
| outFile_Close (name : string) : Call (option error)
| os_Symlink (oldname newname : string) : Call (option error)
| client_NewClientWithOpts : Call (option error)
| cli_Close : Call (option error)
| cliconfig_Load : Call (option error)
| cfg_GetAuthConfig (registryHostname : string) : Call AuthConfig
| cli_ImagePull (ref RegistryAuth : string) : Call (result (list Progress.Chunk))
| io_Copy_Discard : Call unit
| pullReader_Close : Call (option error)
| cli_ImageInspect (ref : string) : Call (result ImageInspect)
| cli_ContainerCreate (config : Config) (hostConfig : HostConfig) : Call (result string)
| archive_TarWithOptions (srcPath includeFile rebase : string) : Call (option error)
| tarStream_Close : Call (option error)
| cli_CopyToContainer (containerID dstPath : string) : Call (option error)
| cli_ContainerStart (containerID : string) : Call (option error)
| cli_ContainerKill (containerID signal : string) : Call (option error)
| cli_ContainerWait (containerID : string) : Call WaitResult
| cli_ContainerInspect (containerID : string) : Call (result ContainerState)
| cli_ContainerLogs (containerID : string) : Call (option error)
| stdcopy_StdCopy : Call (result string)
| out_Close : Call (option error)
| cli_CopyFromContainer (containerID srcPath : string) : Call (result (list TarItem * PathStat))
| reader_Close : Call (option error)
| cli_ContainerStop (containerID : string) : Call (option error)
| cli_ContainerRemove (containerID : string) : Call (option error).

(** The history of a run: each call with the answer it got, each log line
    below Fatal, and what the progress display printed. *)
Inductive Event :=
| Stat (name : string) (r : option error)
| MkdirAll (path : string) (perm : Z) (r : option error)
| Create (name : string) (r : option error)
| Copy (dst content : string) (r : option error)
| FileClose (name : string) (r : option error)
| Symlink (oldname newname : string) (r : option error)
| NewClient (r : option error)
| ClientClose (r : option error)
| LoadConfig (r : option error)
| GetAuthConfig (registryHostname : string) (r : AuthConfig)
| ImagePull (ref RegistryAuth : string) (r : result (list Progress.Chunk))
| Discard
| PullClose (r : option error)
| ImageInspected (ref : string) (r : result ImageInspect)
| ContainerCreate (config : Config) (hostConfig : HostConfig) (r : result string)
| TarWithOptions (srcPath includeFile rebase : string) (r : option error)
| TarClose (r : option error)
| CopyTo (containerID dstPath : string) (r : option error)
| ContainerStart (containerID : string) (r : option error)
| ContainerKill (containerID signal : string) (r : option error)
| ContainerWait (containerID : string) (r : WaitResult)
| ContainerInspected (containerID : string) (r : result ContainerState)
| ContainerLogs (containerID : string) (r : option error)
| StdCopy (r : result string)
| LogsClose (r : option error)
| CopyFrom (containerID srcPath : string) (r : result (list TarItem * PathStat))
| ReaderClose (r : option error)
| ContainerStop (containerID : string) (r : option error)
| ContainerRemove (containerID : string) (r : option error)
| Log (lvl : Level) (msg : string)
| Printed (out : list string).

Definition observe {X : Type} (c : Call X) : X -> Event :=
  match c in Call X return X -> Event with
  | os_Stat n => Stat n
  | os_MkdirAll p m => MkdirAll p m
  | os_Create n => Create n
  | io_Copy d c => Copy d c
  | outFile_Close n => FileClose n
  | os_Symlink o n => Symlink o n
  | client_NewClientWithOpts => NewClient
  | cli_Close => ClientClose
  | cliconfig_Load => LoadConfig
  | cfg_GetAuthConfig h => GetAuthConfig h
  | cli_ImagePull r a => ImagePull r a
  | io_Copy_Discard => fun _ => Discard
  | pullReader_Close => PullClose
  | cli_ImageInspect r => ImageInspected r
  | cli_ContainerCreate c h => ContainerCreate c h
  | archive_TarWithOptions s i r => TarWithOptions s i r
  | tarStream_Close => TarClose
  | cli_CopyToContainer i d => CopyTo i d
  | cli_ContainerStart i => ContainerStart i
  | cli_ContainerKill i s => ContainerKill i s
  | cli_ContainerWait i => ContainerWait i
  | cli_ContainerInspect i => ContainerInspected i
  | cli_ContainerLogs i => ContainerLogs i
  | stdcopy_StdCopy => StdCopy
  | out_Close => LogsClose
  | cli_CopyFromContainer i s => CopyFrom i s
  | reader_Close => ReaderClose
  | cli_ContainerStop i => ContainerStop i
  | cli_ContainerRemove i => ContainerRemove i
  end.

(** The host: answers a call in a world and moves to the next world. *)
Definition Host (W : Type) := forall X : Type, Call X -> W -> X * W.

(** Functions of the Go standard library the runner calls, pure. *)
Record Lib := mkLib {
  filepath_Join : string -> string -> string;
  filepath_Dir : string -> string;
  filepath_Base : string -> string;
  json_Marshal : AuthConfig -> result string;
  base64_URLEncoding : string -> string;   (* EncodeToString *)
  time_Parse : string -> result Z;          (* layout RFC3339Nano; nanoseconds *)
  bufio_Scan : string -> list string * option error
    (* a Scanner over the buffer: the lines [Text()] returned while
       [Scan()] was true, then [Err()] *)
}.

(** Package [globals]. *)
Definition GithubDockerHost : string := "ghcr.io".

Record Globals := mkGlobals {
  Github_Token : string;    (* Config.Github.Token *)
  Quiet : bool;             (* Config.Quiet *)
  LogPath : string
}.

(** The sites of [logrus.Fatal] and [logrus.Fatalf], with what they
    report. *)
Inductive Fatal :=
| FileAlreadyExist (copyTo : string)
| CreateClientFailed (e : error)
| LoadDockerConfigFailed (e : error)
| EncodeAuthConfigFailed (e : error)
| UseImageFailed (imageLink : string) (e : error)
| CreateContainerFailed (e : error)
| CopyToContainerFailed (e : error)
| StartContainerFailed (e : error)
| RunContainerFailed (e : error)
| InspectContainerFailed (e : error)
| StartTimeFailed (e : error)
| EndTimeFailed (e : error)
| GetLogsFailed (e : error)
| NonZeroExitCode (StatusCode : Z)
| StepProblem (taskName logPath : string)
| StopContainerFailed (e : error)
| RemoveContainerFailed (e : error)
| CloseFileFailed (e : error)
| CloseTarStreamFailed (e : error).

(** The closures [RunGhcrContainer] defers. *)
Inductive Deferred :=
| DeferClientClose                      (* err = errors.Join(err, cli.Close()) *)
| DeferPullClose                        (* err = errors.Join(err, reader.Close()) *)
| DeferKill (containerID : string)      (* _ = cli.ContainerKill(ctx, resp.ID, "SIGKILL") *)
| DeferLogsClose (nonNil : bool).       (* err = out.Close() *)

(** How a piece of code stops. *)
Inductive Res (A : Type) :=
| Val (a : A)          (* it falls through with a value *)
| Return               (* a bare [return] of the enclosing function *)
| Exit (m : Fatal)     (* logrus.Fatal*: os.Exit(1); deferred calls do not run *)
| Panic (e : error)    (* a run-time panic *)
| Hang.                (* it never comes back *)
Arguments Val {A} a.
Arguments Return {A}.
Arguments Exit {A} m.
Arguments Panic {A} e.
Arguments Hang {A}.

Record St (W : Type) := mkSt { world : W; defers : list Deferred }.
Arguments mkSt {W} world defers.
Arguments world {W} s.
Arguments defers {W} s.

(** Code: from a state to how it stops, the state then, and the events it
    produced. *)
Definition M (W A : Type) : Type := St W -> Res A * St W * list Event.

Definition ret {W A} (a : A) : M W A := fun s => (Val a, s, []).

Definition bind {W A B} (m : M W A) (k : A -> M W B) : M W B := fun s =>
  match m s with
  | (Val a, s1, t1) => let '(r, s2, t2) := k a s1 in (r, s2, t1 ++ t2)
  | (Return, s1, t1) => (Return, s1, t1)
  | (Exit f, s1, t1) => (Exit f, s1, t1)
  | (Panic e, s1, t1) => (Panic e, s1, t1)
  | (Hang, s1, t1) => (Hang, s1, t1)
  end.

#[global] Instance M_ret {W} : MRet (M W) := fun A a => ret a.
#[global] Instance M_bind {W} : MBind (M W) := fun A B k m => bind m k.

Definition call {W X} (host : Host W) (c : Call X) : M W X := fun s =>
  let '(x, w) := host X c (world s) in
  (Val x, mkSt w (defers s), [observe c x]).

Definition log {W} (lvl : Level) (msg : string) : M W unit := fun s =>
  (Val tt, s, [Log lvl msg]).

Definition print {W} (out : list string) : M W unit := fun s =>
  (Val tt, s, [Printed out]).

Definition fatal {W A} (f : Fatal) : M W A := fun s => (Exit f, s, []).
Definition return_ {W A} : M W A := fun s => (Return, s, []).
Definition hang {W A} : M W A := fun s => (Hang, s, []).

(** [defer f()] *)
Definition defer {W} (d : Deferred) : M W unit := fun s =>
  (Val tt, mkSt (world s) (d :: defers s), []).

(** [if err != nil { logrus.Fatalf(...) }] *)
Definition check {W} (err : option error) (f : error -> Fatal) : M W unit :=
  match err with
  | Some e => fatal (f e)
  | None => ret tt
  end.

(** [v, err := ...; if err != nil { logrus.Fatalf(...) }] *)
Definition must {W A} (r : result A) (f : error -> Fatal) : M W A :=
  match r with
  | Err e => fatal (f e)
  | Ok a => ret a
  end.

(* ===================================================================== *)
(** ** Archive extraction: [utils.ExtractTar]                             *)
(* ===================================================================== *)

(** [strings.HasPrefix] *)
Fixpoint HasPrefix (s prefix : string) : bool :=
  match prefix, s with
  | EmptyString, _ => true
  | String p prefix', String c s' => Ascii.eqb c p && HasPrefix s' prefix'
  | String _ _, EmptyString => false
  end.

(** [s[n:]] *)
Fixpoint drop_chars (n : nat) (s : string) : string :=
  match n, s with
  | S n', String _ s' => drop_chars n' s'
  | _, _ => s
  end.

(** [strings.TrimPrefix] *)
Definition TrimPrefix (s prefix : string) : string :=
  if HasPrefix s prefix then drop_chars (String.length prefix) s else s.

(** [string(filepath.Separator)] on the platforms the CLI is built for. *)
Definition Separator : string := "/".

Section Code.

Context {W : Type}.
Variable host : Host W.
Variable lib : Lib.
Variable globals : Globals.

(** Lines 28-34 of [ExtractTar]: where an entry goes. *)
Definition entry_target (basePath destPath : string) (isSourceDir : bool) (hdr : Header) : string :=
  let relPath := TrimPrefix (Name hdr) basePath in
  let relPath := TrimPrefix relPath Separator in
  if isSourceDir then filepath_Join lib destPath relPath else destPath.

Definition handleDirectory (target : string) (hdr : Header) : M W (option error) :=
  err ← call host (os_MkdirAll target (Mode hdr));
  match err with
  | Some e => mret (Some ("failed to create directory " +:+ target +:+ ": " +:+ e))
  | None => mret None
  end.

(** The deferred [outFile.Close()] assigns the local [err] after the
    unnamed result is set, so its error is lost. *)
Definition handleRegularFile (content : string) (target : string) (hdr : Header) : M W (option error) :=
  err ← call host (os_MkdirAll (filepath_Dir lib target) 493 (* 0755 *));
  match err with
  | Some e => mret (Some ("failed to create parent dir for file " +:+ target +:+ ": " +:+ e))
  | None =>
    err ← call host (os_Create target);
    match err with
    | Some e => mret (Some ("failed to create file " +:+ target +:+ ": " +:+ e))
    | None =>
      err ← call host (io_Copy target content);
      _ ← call host (outFile_Close target);
      match err with
      | Some e => mret (Some ("failed to copy contents to " +:+ target +:+ ": " +:+ e))
      | None => mret None
      end
    end
  end.

Definition handleSymlink (target : string) (hdr : Header) : M W (option error) :=
  err ← call host (os_MkdirAll (filepath_Dir lib target) 493);
  match err with
  | Some e => mret (Some ("failed to create parent dir for symlink " +:+ target +:+ ": " +:+ e))
  | None =>
    err ← call host (os_Symlink (Linkname hdr) target);
    match err with
    | Some e => mret (Some ("failed to create symlink from " +:+ target +:+ " to "
                              +:+ Linkname hdr +:+ ": " +:+ e))
    | None => mret None
    end
  end.

(** The [switch hdr.Typeflag] of [ExtractTar]. *)
Definition extract_entry (target : string) (hdr : Header) (content : string) : M W (option error) :=
  if Ascii.eqb (Typeflag hdr) TypeDir then handleDirectory target hdr
  else if Ascii.eqb (Typeflag hdr) TypeReg then handleRegularFile content target hdr
  else if Ascii.eqb (Typeflag hdr) TypeSymlink then handleSymlink target hdr
  else if Ascii.eqb (Typeflag hdr) TypeXGlobalHeader then
    log TraceLevel "Skipping global header";; mret None
  else
    log WarnLevel ("Skipping unsupported type " +:+ String (Typeflag hdr) ": " +:+ Name hdr);;
    mret None.

(** The loop over [tr.Next()]. *)
Fixpoint ExtractTar (tr : list TarItem) (basePath destPath : string) (isSourceDir : bool)
  : M W (option error) :=
  match tr with
  | [] => mret None                                           (* io.EOF: break *)
  | Corrupt e :: _ => mret (Some ("error reading tar archive: " +:+ e))
  | Entry hdr content :: rest =>
    err ← extract_entry (entry_target basePath destPath isSourceDir hdr) hdr content;
    match err with
    | Some e => mret (Some e)
    | None => ExtractTar rest basePath destPath isSourceDir
    end
  end.

(* ===================================================================== *)
(** ** The orchestrator: package [container_run]                          *)
(* ===================================================================== *)

Definition CopyFileFromContainer (containerID containerPath hostPath : string) : M W (option error) :=
  err ← call host (os_Stat hostPath);
  match err with
  | None => mret (Some ("file already exists: " +:+ hostPath))
  | Some _ =>
    r ← call host (cli_CopyFromContainer containerID containerPath);
    match r with
    | Err e => mret (Some ("failed to copy from container: " +:+ e))
    | Ok (tr, stat) =>
      err ← ExtractTar tr (StatName stat) hostPath (IsDir stat);
      (* deferred: reader.Close() *)
      cerr ← call host reader_Close;
      check cerr CloseFileFailed;;
      match err with
      | Some e => mret (Some ("failed to extract tar archive: " +:+ e))
      | None => mret None
      end
    end
  end.

Definition CopyToContainer (containerID localDir containerDestPath : string) : M W (option error) :=
  err ← call host (os_Stat localDir);
  match err with
  | Some e => mret (Some ("cannot stat local path: " +:+ e))
  | None =>
    let baseName := filepath_Base lib localDir in
    let parentDir := filepath_Dir lib localDir in
    err ← call host (archive_TarWithOptions parentDir baseName containerDestPath);
    match err with
    | Some e => mret (Some ("failed to create tar archive: " +:+ e))
    | None =>
      err ← call host (cli_CopyToContainer containerID "/");
      (* deferred: tarStream.Close() *)
      cerr ← call host tarStream_Close;
      check cerr CloseTarStreamFailed;;
      match err with
      | Some e => mret (Some ("failed to copy to container: " +:+ e))
      | None => mret None
      end
    end
  end.

(** Lines 259-263: no output destination may exist. Go ranges over a map
    in an order of its choosing; the list is that order. *)
Fixpoint preflight (copyFromContainer : list (string * string)) : M W unit :=
  match copyFromContainer with
  | [] => mret tt
  | (_, copyTo) :: rest =>
    err ← call host (os_Stat copyTo);
    match err with
    | None => fatal (FileAlreadyExist copyTo)
    | Some _ => preflight rest
    end
  end.

(** Lines 277-287: the password, the configured token or else the one the
    Docker config holds for the registry. *)
Definition resolvePassword : M W string :=
  if String.eqb (Github_Token globals) "" then
    err ← call host cliconfig_Load;
    check err LoadDockerConfigFailed;;
    a ← call host (cfg_GetAuthConfig GithubDockerHost);
    mret (Password a)
  else mret (Github_Token globals).

(** Lines 289-304: [options.RegistryAuth] for a password; empty when
    there is none. *)
Definition encodeAuth (password : string) : M W string :=
  if String.eqb password "" then mret ""
  else
    encodedJSON ← must (json_Marshal lib (mkAuthConfig "USERNAME" password))
                       EncodeAuthConfigFailed;
    mret (base64_URLEncoding lib encodedJSON).

(** Lines 274-305: the value of [options.RegistryAuth]. *)
Definition registryAuth (imageLink : string) : M W string :=
  if HasPrefix imageLink GithubDockerHost then
    password ← resolvePassword;
    encodeAuth password
  else mret "".

(** Lines 332-344: what is logged about the image. *)
Definition log_image (imageLink : string) (i : ImageInspect) : M W unit :=
  log DebugLevel ("Docker image: " +:+ imageLink);;
  log DebugLevel ("Image os: " +:+ Os i);;
  log DebugLevel ("Image arch: " +:+ Architecture i);;
  match RepoTags i with
  | [] => mret tt
  | [t] => log DebugLevel ("Docker tag: " +:+ t)
  | _ => log DebugLevel "Docker tags:"
  end;;
  match RepoDigests i with
  | [] => mret tt
  | [d] => log DebugLevel ("Docker digest: " +:+ d)
  | _ => log DebugLevel "Docker digests:"
  end.

(** Lines 307-345: pull, drain the progress stream, inspect. The display
    is given one iteration per chunk and one for the end of the stream. *)
Definition acquireImage (imageLink RegistryAuth : string) : M W ImageInspect :=
  pulled ← call host (cli_ImagePull imageLink RegistryAuth);
  match pulled with
  | Ok reader =>
    defer DeferPullClose;;
    log DebugLevel ("Pulling docker image: " +:+ imageLink);;
    if Quiet globals then call host io_Copy_Discard
    else
      match Progress.DisplayInteractiveProgress (S (length reader)) reader with
      | Some out => print out
      | None => hang
      end
  | Err _ => mret tt
  end;;
  inspected ← call host (cli_ImageInspect imageLink);
  match inspected with
  | Err e =>
    match pulled with
    | Err imagePullErr => fatal (UseImageFailed imageLink imagePullErr)
    | Ok _ => fatal (UseImageFailed imageLink e)
    end
  | Ok imageInspect => log_image imageLink imageInspect;; mret imageInspect
  end.

(** Lines 356-364 *)
Fixpoint stageInputs (containerID : string) (copyToContainer : list (string * string)) : M W unit :=
  match copyToContainer with
  | [] => mret tt
  | (copyFrom, copyTo) :: rest =>
    log DebugLevel ("Copy " +:+ copyFrom +:+ " to container " +:+ copyTo);;
    err ← CopyToContainer containerID copyFrom copyTo;
    match err with
    | Some e =>
      log ErrorLevel ("Unexpected error occurred while trying to copy files to container: from "
                        +:+ copyFrom +:+ " to " +:+ copyTo);;
      fatal (CopyToContainerFailed e)
    | None => stageInputs containerID rest
    end
  end.

(** Lines 401-429: the container's log. [ContainerLogs] answers an error
    with a nil reader. *)
Definition collectLogs (containerID : string) : M W unit :=
  err ← call host (cli_ContainerLogs containerID);
  defer (DeferLogsClose (bool_decide (err = None)));;
  match err with
  | Some e => log DebugLevel ("Failed to get container logs: " +:+ e);; return_
  | None =>
    copied ← call host stdcopy_StdCopy;
    sourceBuffer ← must copied GetLogsFailed;
    let '(lines, scanErr) := bufio_Scan lib sourceBuffer in
    let allLogs := String.concat "" (map (fun l => l +:+ Progress.NL) lines) in
    match scanErr with
    | Some e => log DebugLevel ("Error reading container logs: " +:+ e)
    | None => mret tt
    end;;
    log DebugLevel ("Container log:" +:+ Progress.NL +:+ allLogs)
  end.

(** Lines 380-434: the [statusCh] case of the [select]. *)
Definition onStatus (containerID : string) (StatusCode : Z) : M W unit :=
  r ← call host (cli_ContainerInspect containerID);
  inspect ← must r InspectContainerFailed;
  startTime ← must (time_Parse lib (StartedAt inspect)) StartTimeFailed;
  endTime ← must (time_Parse lib (FinishedAt inspect)) EndTimeFailed;
  let duration := (endTime - startTime)%Z in
  log DebugLevel "End processing";;
  log InfoLevel ("Processing time: " +:+ pretty duration +:+ "ns");;
  collectLogs containerID;;
  if bool_decide (StatusCode = 0%Z) then mret tt
  else fatal (NonZeroExitCode StatusCode).

(** Lines 374-434 *)
Definition awaitContainer (containerID : string) : M W unit :=
  r ← call host (cli_ContainerWait containerID);
  match r with
  | FromErrCh (Some e) => fatal (RunContainerFailed e)
  | FromErrCh None => mret tt
  | FromStatusCh StatusCode => onStatus containerID StatusCode
  end.

(** Lines 436-447 *)
Fixpoint collectOutputs (taskName containerID : string)
    (copyFromContainer : list (string * string)) : M W unit :=
  match copyFromContainer with
  | [] => mret tt
  | (copyFrom, copyTo) :: rest =>
    log DebugLevel ("Copy " +:+ copyFrom +:+ " from container to " +:+ copyTo);;
    err ← CopyFileFromContainer containerID copyFrom copyTo;
    match err with
    | Some e =>
      log ErrorLevel e;;
      (if String.eqb taskName "Compile" then log ErrorLevel "Try compile with flag --native"
       else mret tt);;
      fatal (StepProblem taskName (LogPath globals))
    | None => collectOutputs taskName containerID rest
    end
  end.

(** The body of [RunGhcrContainer], top to bottom. *)
Definition RunGhcrContainer_body (taskName imageLink : string) (flags envCont : list string)
    (hostConfig : HostConfig) (copyToContainer copyFromContainer : list (string * string))
  : M W unit :=
  log InfoLevel "";;
  log InfoLevel ("=== " +:+ taskName +:+ " ===");;
  let config := mkConfig imageLink flags envCont true true true in
  log DebugLevel ("Image: " +:+ imageLink);;
  log DebugLevel "Flags:";;
  log DebugLevel "Env:";;
  preflight copyFromContainer;;
  err ← call host client_NewClientWithOpts;
  check err CreateClientFailed;;
  defer DeferClientClose;;
  RegistryAuth ← registryAuth imageLink;
  _ ← acquireImage imageLink RegistryAuth;
  r ← call host (cli_ContainerCreate config hostConfig);
  resp_ID ← must r CreateContainerFailed;
  log DebugLevel ("Container created ID: " +:+ resp_ID);;
  log InfoLevel ("Start processing: " +:+ taskName);;
  stageInputs resp_ID copyToContainer;;
  log DebugLevel "Files copied to container";;
  err ← call host (cli_ContainerStart resp_ID);
  check err StartContainerFailed;;
  defer (DeferKill resp_ID);;
  awaitContainer resp_ID;;
  collectOutputs taskName resp_ID copyFromContainer;;
  log DebugLevel "Files copied from container";;
  err ← call host (cli_ContainerStop resp_ID);
  check err StopContainerFailed;;
  err ← call host (cli_ContainerRemove resp_ID);
  check err RemoveContainerFailed.

(** One deferred closure. Calling [Close] on the nil reader panics. *)
Definition run_deferred (d : Deferred) : M W unit :=
  match d with
  | DeferClientClose => _ ← call host cli_Close; mret tt
  | DeferPullClose => _ ← call host pullReader_Close; mret tt
  | DeferKill containerID => _ ← call host (cli_ContainerKill containerID "SIGKILL"); mret tt
  | DeferLogsClose true => _ ← call host out_Close; mret tt
  | DeferLogsClose false => fun s => (Panic "invalid memory address or nil pointer dereference", s, [])
  end.

(** How the process leaves [RunGhcrContainer]. *)
Inductive Outcome :=
| Returned
| Exited (m : Fatal)       (* os.Exit(1) *)
| Panicked (e : error)
| Hung.

(** The deferred closures, last registered first; a panic in one does not
    keep the others from running. *)
Fixpoint unwind (ds : list Deferred) (o : Outcome) (w : W) : Outcome * list Event :=
  match ds with
  | [] => (o, [])
  | d :: rest =>
    match run_deferred d (mkSt w []) with
    | (Val _, s, t) | (Return, s, t) =>
        let '(o', t') := unwind rest o (world s) in (o', t ++ t')
    | (Panic e, s, t) =>
        let '(o', t') := unwind rest (Panicked e) (world s) in (o', t ++ t')
    | (Exit m, _, t) => (Exited m, t)
    | (Hang, _, t) => (Hung, t)
    end
  end.

(** What leaving the body means for the process: a fall off the end or a
    [return] runs the deferred closures, [os.Exit] does not. *)
Definition leave (r : Res unit) (s : St W) (t : list Event) : Outcome * list Event :=
  match r with
  | Val _ | Return =>
      let '(o, t') := unwind (defers s) Returned (world s) in (o, t ++ t')
  | Panic e =>
      let '(o, t') := unwind (defers s) (Panicked e) (world s) in (o, t ++ t')
  | Exit m => (Exited m, t)
  | Hang => (Hung, t)
  end.

(** [RunGhcrContainer]: how it ends and the history of the run. *)
Definition RunGhcrContainer (taskName imageLink : string) (flags envCont : list string)
    (hostConfig : HostConfig) (copyToContainer copyFromContainer : list (string * string))
    (w : W) : Outcome * list Event :=
  let '(r, s, t) := RunGhcrContainer_body taskName imageLink flags envCont hostConfig
                      copyToContainer copyFromContainer (mkSt w []) in
  leave r s t.

End Code.

(* ===================================================================== *)
(** ** Observations on a history                                          *)
(* ===================================================================== *)

(** Calls on the Docker client, from creating it to closing it. *)
Definition daemon_call (e : Event) : bool :=
  match e with
  | NewClient _ | ClientClose _ | ImagePull _ _ _ | PullClose _ | ImageInspected _ _
  | ContainerCreate _ _ _ | CopyTo _ _ _ | ContainerStart _ _ | ContainerKill _ _ _
  | ContainerWait _ _ | ContainerInspected _ _ | ContainerLogs _ _ | StdCopy _
  | LogsClose _ | CopyFrom _ _ _ | ReaderClose _
  | ContainerStop _ _ | ContainerRemove _ _ => true
  | _ => false
  end.

(** What the steps before [ContainerStart] leave in the history, the
    creation of the client and of the container apart. *)
Definition setup_event (e : Event) : bool :=
  match e with
  | Stat _ _ | LoadConfig _ | GetAuthConfig _ _ | ImagePull _ _ _ | Discard
  | ImageInspected _ _ | TarWithOptions _ _ _ _ | TarClose _ | CopyTo _ _ _
  | Log _ _ | Printed _ => true
  | _ => false
  end.

(** What collecting the outputs leaves in the history. *)
Definition collect_event (e : Event) : bool :=
  match e with
  | Stat _ _ | CopyFrom _ _ _ | ReaderClose _ | MkdirAll _ _ _ | Create _ _
  | Copy _ _ _ | FileClose _ _ | Symlink _ _ _ | Log _ _ => true
  | _ => false
  end.

(** The fatal errors of the steps before [ContainerStart], and of
    collecting the outputs. *)
Definition setup_fatal (f : Fatal) : bool :=
  match f with
  | FileAlreadyExist _ | LoadDockerConfigFailed _ | EncodeAuthConfigFailed _
  | UseImageFailed _ _ | CopyToContainerFailed _ | CloseTarStreamFailed _ => true
  | _ => false
  end.

Definition collect_fatal (f : Fatal) : bool :=
  match f with
  | StepProblem _ _ | CloseFileFailed _ => true
  | _ => false
  end.

Definition is_log (e : Event) : bool :=
  match e with
  | Log _ _ => true
  | _ => false
  end.

(** A history without its log lines. *)
Definition unlogged (t : list Event) : list Event :=
  List.filter (fun e => negb (is_log e)) t.

(** The library with another line scanner. *)
Definition with_scan (scan : string -> list string * option error) (lib : Lib) : Lib :=
  mkLib (filepath_Join lib) (filepath_Dir lib) (filepath_Base lib) (json_Marshal lib)
        (base64_URLEncoding lib) (time_Parse lib) scan.

(** What [ExtractTar] may do to the host for an entry bound for [target]. *)
Definition addresses (lib : Lib) (target : string) (e : Event) : Prop :=
  match e with
  | MkdirAll path _ _ => path = target \/ path = filepath_Dir lib target
  | Create name _ | FileClose name _ | Copy name _ _ => name = target
  | Symlink _ newname _ => newname = target
  | _ => False
  end.


(* ===================================================================== *)
(** ** A scripted host, for concrete runs                                 *)
(* ===================================================================== *)

Module Demo.

(** The answers that vary between the runs below; every other call
    succeeds. *)
Record Script := mkScript {
  existing : list string;                    (* paths [os.Stat] finds *)
  stored : string;                           (* password in the Docker config *)
  pull : result (list Progress.Chunk);
  inspect : result ImageInspect;
  wait : WaitResult;
  logs : option error;
  demux : result string;
  archive : result (list TarItem * PathStat)
}.

Definition found (paths : list string) (p : string) : bool :=
  existsb (String.eqb p) paths.

(** The world is the set of paths that exist; creating a file or a
    directory adds its path. *)
Definition scripted (sc : Script) : Host (list string) := fun X c fs =>
  match c in Call X return X * list string with
  | os_Stat n => (if found fs n then None else Some "no such file or directory", fs)
  | os_MkdirAll p _ => (None, p :: fs)
  | os_Create n => (None, n :: fs)
  | io_Copy _ _ => (None, fs)
  | outFile_Close _ => (None, fs)
  | os_Symlink _ n => (None, n :: fs)
  | client_NewClientWithOpts => (None, fs)
  | cli_Close => (None, fs)
  | cliconfig_Load => (None, fs)
  | cfg_GetAuthConfig _ => (mkAuthConfig "" (stored sc), fs)
  | cli_ImagePull _ _ => (pull sc, fs)
  | io_Copy_Discard => (tt, fs)
  | pullReader_Close => (None, fs)
  | cli_ImageInspect _ => (inspect sc, fs)
  | cli_ContainerCreate _ _ => (Ok "c0ffee", fs)
  | archive_TarWithOptions _ _ _ => (None, fs)
  | tarStream_Close => (None, fs)
  | cli_CopyToContainer _ _ => (None, fs)
  | cli_ContainerStart _ => (None, fs)
  | cli_ContainerKill _ _ => (None, fs)
  | cli_ContainerWait _ => (wait sc, fs)
  | cli_ContainerInspect _ =>
      (Ok (mkContainerState "2025-09-01T10:00:00Z" "2025-09-01T10:00:07Z"), fs)
  | cli_ContainerLogs _ => (logs sc, fs)
  | stdcopy_StdCopy => (demux sc, fs)
  | out_Close => (None, fs)
  | cli_CopyFromContainer _ _ => (archive sc, fs)
  | reader_Close => (None, fs)
  | cli_ContainerStop _ => (None, fs)
  | cli_ContainerRemove _ => (None, fs)
  end.

Fixpoint has_slash (s : string) : bool :=
  match s with
  | EmptyString => false
  | String c s' => Ascii.eqb c "/"%char || has_slash s'
  end.

(** Last element of a clean path with no trailing separator. *)
Fixpoint base (s : string) : string :=
  match s with
  | EmptyString => EmptyString
  | String c s' => if has_slash s' then base s' else if Ascii.eqb c "/"%char then s' else s
  end.

Fixpoint take_chars (n : nat) (s : string) : string :=
  match n, s with
  | S n', String c s' => String c (take_chars n' s')
  | _, _ => EmptyString
  end.

Definition dir (s : string) : string :=
  take_chars (String.length s - String.length (base s) - 1) s.

Definition join (a b : string) : string :=
  if String.eqb b "" then a else a +:+ "/" +:+ b.

(** Stand-ins for the library on clean paths, one-line logs and any
    timestamp; [scanErr] is what the scanner reports. *)
Definition lib (scanErr : option error) : Lib := {|
  filepath_Join := join;
  filepath_Dir := dir;
  filepath_Base := base;
  json_Marshal := fun a => Ok ("{username:" +:+ Username a +:+ ",password:" +:+ Password a +:+ "}");
  base64_URLEncoding := fun s => "base64url(" +:+ s +:+ ")";
  time_Parse := fun _ => Ok 0%Z;
  bufio_Scan := fun buf => ([buf], scanErr)
|}.

Definition image : string := "ghcr.io/seqrateam/seqra-jvm-autobuilder/sast-autobuilder:v1".

Definition metadata : ImageInspect := mkImageInspect "linux" "amd64" [image] [].

Definition class_file : Header := mkHeader "build/classes/A.class" TypeReg 420 "".
Definition pax_header : Header := mkHeader "pax_global_header" TypeXGlobalHeader 0 "".
Definition build_dir : Header := mkHeader "build" TypeDir 493 "".

(** The scenario of the README: a compile step whose container exits
    with 0 and leaves [/data/build]. *)
Definition ok : Script := {|
  existing := ["/host/proj"];
  stored := "";
  pull := Ok [Progress.Message (Progress.mkProgress "Pulling fs layer" "" "a1")];
  inspect := Ok metadata;
  wait := FromStatusCh 0;
  logs := None;
  demux := Ok "BUILD OK";
  archive := Ok ([Entry build_dir ""; Entry class_file "cafebabe"], mkPathStat "build" true)
|}.

Definition with_wait (r : WaitResult) (sc : Script) : Script :=
  mkScript (existing sc) (stored sc) (pull sc) (inspect sc) r (logs sc) (demux sc) (archive sc).
Definition with_logs (r : option error) (sc : Script) : Script :=
  mkScript (existing sc) (stored sc) (pull sc) (inspect sc) (wait sc) r (demux sc) (archive sc).
Definition with_demux (r : result string) (sc : Script) : Script :=
  mkScript (existing sc) (stored sc) (pull sc) (inspect sc) (wait sc) (logs sc) r (archive sc).
Definition with_archive (r : result (list TarItem * PathStat)) (sc : Script) : Script :=
  mkScript (existing sc) (stored sc) (pull sc) (inspect sc) (wait sc) (logs sc) (demux sc) r.
Definition with_pull (r : result (list Progress.Chunk)) (sc : Script) : Script :=
  mkScript (existing sc) (stored sc) r (inspect sc) (wait sc) (logs sc) (demux sc) (archive sc).
Definition with_inspect (r : result ImageInspect) (sc : Script) : Script :=
  mkScript (existing sc) (stored sc) (pull sc) r (wait sc) (logs sc) (demux sc) (archive sc).

Definition config (token : string) : Globals := mkGlobals token false "/home/user/.seqra/logs/run.log".

(** One run of the compile step under a script. *)
Definition run (sc : Script) (scanErr : option error) (token : string) : Outcome * list Event :=
  RunGhcrContainer (scripted sc) (lib scanErr) (config token)
    "Compile" image ["--project-root-dir"; "/data/project"] ["CONTAINER_UID=1000"]
    (mkHostConfig []) [("/host/proj", "/data/project")] [("/data/build", "/host/out")]
    (existing sc).

(** The container of the scripted daemon. *)
Definition container : string := "c0ffee".

(** The container exits with status 3. *)
Definition exit3 : Script := with_wait (FromStatusCh 3) ok.

(** The error channel of the wait fires. *)
Definition wait_fails : Script := with_wait (FromErrCh (Some "connection reset by peer")) ok.

(** Demultiplexing the fetched log fails. *)
Definition demux_fails : Script := with_demux (Err "unrecognized input header") ok.

(** The same, for a container that exited with status 3. *)
Definition exit3_demux_fails : Script := with_demux (Err "unrecognized input header") exit3.

(** The output destination is there before the run. *)
Definition clobber : Script :=
  mkScript ["/host/proj"; "/host/out"] "" (pull ok) (inspect ok) (wait ok) (logs ok)
           (demux ok) (archive ok).

(** The registry cannot be reached, the image is in the local cache. *)
Definition offline : Script := with_pull (Err "dial tcp: i/o timeout") ok.

End Demo.


(* ===================================================================== *)
(** ** Predicates used to reason about code in [M]                        *)
(* ===================================================================== *)

(** [wp m s pre Q]: running [m] from [s] after the history [pre] ends in a
    result, a state and a history that satisfy [Q]. *)
Definition wp {W A} (m : M W A) (s : St W) (pre : list Event)
    (Q : Res A -> St W -> list Event -> Prop) : Prop :=
  Q (m s).1.1 (m s).1.2 (pre ++ (m s).2).
Arguments wp : simpl never.

(** Events of the deferred closures. *)
Definition cleanup_call (e : Event) : bool :=
  match e with
  | ClientClose _ | PullClose _ | ContainerKill _ _ _ | LogsClose _ => true
  | _ => false
  end.

(** A step that leaves only events of one kind, keeps the defer stack and
    either falls through or exits. *)
Definition tame {W A} (P : Event -> bool) (F : Fatal -> bool) (s : St W)
    (r : Res A) (s' : St W) (t : list Event) : Prop :=
  Forall (fun e => P e = true) t /\ defers s' = defers s /\
  ((exists a, r = Val a) \/ (exists f, r = Exit f /\ F f = true)).

(** Two pieces of code that agree but for their log lines. *)
Definition alike {W A} (x y : Res A * St W * list Event) : Prop :=
  x.1.1 = y.1.1 /\ x.1.2 = y.1.2 /\ unlogged x.2 = unlogged y.2.

(** What a successful extraction leaves in the history for an entry. *)
Definition entry_written (target : string) (hdr : Header) (content : string)
    (t : list Event) : Prop :=
  if Ascii.eqb (Typeflag hdr) TypeDir then In (MkdirAll target (Mode hdr) None) t
  else if Ascii.eqb (Typeflag hdr) TypeReg then
    In (Create target None) t /\ In (Copy target content None) t
  else if Ascii.eqb (Typeflag hdr) TypeSymlink then
    In (Symlink (Linkname hdr) target None) t
  else True.

(** An event of an extraction: a log line, or an operation on the target
    of an entry of the stream. *)
Definition entry_event (lib : Lib) (tr : list TarItem) (base dest : string) (isDir : bool) (e : Event) : Prop :=
  is_log e = true \/
  exists hdr c, In (Entry hdr c) tr /\ addresses lib (entry_target lib base dest isDir hdr) e.


(* ===================================================================== *)
(** ** Observations on the progress display                               *)
(* ===================================================================== *)

Module Display.
Import Progress.

(** The chunks [Decode] hands to the loop body or latches on. *)
Definition keep (c : Chunk) : bool :=
  match c with
  | Mismatch _ => false
  | _ => true
  end.

(** Newline characters in what was printed. *)
Definition newlines (out : list string) : nat :=
  list_sum (map count_newlines out).

(** The key under which the loop body files a message, and the line it
    stores there. *)
Definition layer_key (p : progress) : string :=
  if String.eqb (ID p) "" then "message_" +:+ Status p else ID p.

Definition layer_line (p : progress) : string :=
  if String.eqb (ID p) "" then Status p
  else if String.eqb (ProgressText p) "" then ID p +:+ ": " +:+ Status p
  else ID p +:+ ": " +:+ Status p +:+ " " +:+ ProgressText p.

(** The messages of a stream. *)
Definition messages (rd : list Chunk) : list progress :=
  omap (fun c => match c with Message p => Some p | _ => None end) rd.

(** What the screen shows after an iteration: the lines of the last
    redraw. *)
Definition frame (sc : Screen) : list string := (redraw (layers sc) (layerOrder sc)).1.

(** A list without the later occurrences of its elements. *)
Definition first_seen (ids : list string) : list string :=
  reverse (remove_dups (reverse ids)).

End Display.

(* ===================================================================== *)
(** ** Observations on a run, phase by phase                              *)
(* ===================================================================== *)

(** The scripted host with a disk that fails every [Close] of an
    extracted file. *)
Definition failing_close (sc : Demo.Script) : Host (list string) := fun X c fs =>
  match c in Call X return X * list string with
  | outFile_Close _ => (Some "input/output error", fs)
  | c' => Demo.scripted sc _ c' fs
  end.

(** What the steps before [ContainerStart] leave in the history, acquiring
    the image apart. *)
Definition stage_event (e : Event) : bool :=
  match e with
  | Stat _ _ | LoadConfig _ | GetAuthConfig _ _ | TarWithOptions _ _ _ _ | TarClose _
  | CopyTo _ _ _ | Log _ _ => true
  | _ => false
  end.

(** The event a deferred closure leaves. *)
Definition deferred_event (d : Deferred) (e : Event) : Prop :=
  match d, e with
  | DeferClientClose, ClientClose _ => True
  | DeferPullClose, PullClose _ => True
  | DeferKill id, ContainerKill id' signal _ => id' = id /\ signal = "SIGKILL"
  | DeferLogsClose true, LogsClose _ => True
  | _, _ => False
  end.

(** An input that has been staged: archived from the directory above it
    under its base name, rebased to its destination, and uploaded at the
    root of the container. *)
Definition staged (lib : Lib) (id : string) (t : list Event) (x : string * string) : Prop :=
  In (TarWithOptions (filepath_Dir lib x.1) (filepath_Base lib x.1) x.2 None) t /\
  In (CopyTo id "/" None) t.

(** An output that has been collected: its destination was not there, the
    daemon delivered the archive, and every entry of it was written. *)
Definition collected (lib : Lib) (id : string) (t : list Event) (x : string * string) : Prop :=
  exists e tr stat,
    In (Stat x.2 (Some e)) t /\
    In (CopyFrom id x.1 (Ok (tr, stat))) t /\
    forall hdr c, In (Entry hdr c) tr ->
      entry_written (entry_target lib (StatName stat) x.2 (IsDir stat) hdr) hdr c t.


Definition no_logs : Demo.Script := Demo.with_logs (Some "No such container: c0ffee") Demo.ok.

(** [strings.Contains(s, string(c))] *)
Fixpoint contains (c : ascii) (s : string) : bool :=
  match s with
  | EmptyString => false
  | String x s' => Ascii.eqb x c || contains c s'
  end.

(* ===================================================================== *)
(** ** Image references: [utils.GetImageLink]                             *)
(* ===================================================================== *)

Module ImageLink.

Definition between (lo hi : nat) (c : ascii) : bool :=
  (lo <=? nat_of_ascii c)%nat && (nat_of_ascii c <=? hi)%nat.

(** Letters and digits. *)
Definition alnum (c : ascii) : bool :=
  between 97 122 c || between 65 90 c || between 48 57 c.

(** The first class of the pattern, letters, digits and [.-/]: between
    the dot and the slash the hyphen makes a range, which holds these two
    characters and no hyphen. *)
Definition path_char (c : ascii) : bool :=
  alnum c || between 46 47 c.

(** The second and third class: letters, digits, dot, underscore and
    hyphen. *)
Definition name_char (c : ascii) : bool :=
  alnum c || Ascii.eqb c "."%char || Ascii.eqb c "_"%char || Ascii.eqb c "-"%char.

Fixpoint all_chars (P : ascii -> bool) (s : string) : bool :=
  match s with
  | EmptyString => true
  | String c s' => P c && all_chars P s'
  end.

(** One or more name characters, up to the end. *)
Definition tag (s : string) : bool :=
  match s with
  | EmptyString => false
  | _ => all_chars name_char s
  end.

(** One or more name characters, a colon, and a tag; [seen] tells that
    a character of the name has been read. *)
Fixpoint name_colon_tag (seen : bool) (s : string) : bool :=
  match s with
  | EmptyString => false
  | String c s' =>
    if Ascii.eqb c ":"%char then seen && tag s'
    else name_char c && name_colon_tag true s'
  end.

(** The whole pattern, anchored at both ends: an optional run of path
    characters, then name, colon and tag. The name may start here, or
    after one more character of the path. *)
Fixpoint imageRefRegex (s : string) : bool :=
  name_colon_tag false s ||
  match s with
  | EmptyString => false
  | String c s' => path_char c && imageRefRegex s'
  end.

Definition GetImageLink (version path : string) : string :=
  if imageRefRegex version then version else path +:+ ":" +:+ version.

(** Package [globals]. *)
Definition RepoOwner : string := "seqrateam".
Definition AnalyzerDocker : string :=
  GithubDockerHost +:+ "/" +:+ RepoOwner +:+ "/seqra-jvm-sast/sast-analyzer".
Definition AnalyzerBindVersion : string := "2025.09.01.27022f4".

(** The strings the pattern is written for: a path, a name, a colon and
    a tag. *)
Definition reference (s : string) : Prop :=
  exists dir name t,
    s = dir +:+ name +:+ ":" +:+ t /\
    all_chars path_char dir = true /\
    name <> "" /\ all_chars name_char name = true /\
    t <> "" /\ all_chars name_char t = true.

End ImageLink.

(* ===================================================================== *)
(** ** Rule identifiers: package [semgrep]                                *)
(* ===================================================================== *)

Module Semgrep.

(** [strings.LastIndex(s, string(c))]; [None] is -1. *)
Fixpoint LastIndex (s : string) (c : ascii) : option nat :=
  match s with
  | EmptyString => None
  | String x s' =>
    match LastIndex s' c with
    | Some i => Some (S i)
    | None => if Ascii.eqb x c then Some 0 else None
    end
  end.

(** [s[:n]] *)
Fixpoint take_chars (n : nat) (s : string) : string :=
  match n, s with
  | S n', String x s' => String x (take_chars n' s')
  | _, _ => EmptyString
  end.

(** The class of the pattern [\s]: tab, line feed, form feed, carriage
    return and space. *)
Definition space (c : ascii) : bool :=
  let n := nat_of_ascii c in
  (n =? 9)%nat || (n =? 10)%nat || (n =? 12)%nat || (n =? 13)%nat || (n =? 32)%nat.

(** [ReplaceAllString] of the pattern [\s+] with the empty replacement. *)
Fixpoint strip_space (s : string) : string :=
  match s with
  | EmptyString => EmptyString
  | String x s' => if space x then strip_space s' else String x (strip_space s')
  end.

(** [strings.Split(s, string(sep))]: one more element than [s] has
    separators. *)
Fixpoint Split (s : string) (sep : ascii) : list string :=
  match s with
  | EmptyString => [EmptyString]
  | String x s' =>
    if Ascii.eqb x sep then EmptyString :: Split s' sep
    else match Split s' sep with
         | first :: rest => String x first :: rest
         | [] => [String x EmptyString]
         end
  end.

(** [strings.Join] *)
Definition Join (elems : list string) (sep : string) : string := String.concat sep elems.

(** [strings.TrimLeft(s, string(c))] *)
Fixpoint TrimLeft (s : string) (c : ascii) : string :=
  match s with
  | String x s' => if Ascii.eqb x c then TrimLeft s' c else s
  | EmptyString => EmptyString
  end.

(** [strings.TrimSuffix(s, string(c))] *)
Fixpoint TrimSuffix (s : string) (c : ascii) : string :=
  match s with
  | EmptyString => EmptyString
  | String x EmptyString => if Ascii.eqb x c then EmptyString else s
  | String x s' => String x (TrimSuffix s' c)
  end.

(** [os.PathSeparator] on the platforms the CLI is built for. *)
Definition PathSeparator : ascii := "/"%char.

Section Code.

Context {W : Type}.

(** What [os.Getwd] answers: the directory, empty with an error, and the
    error. *)
Variable os_Getwd : string * option error.

Definition GetRuleIdPathStart (userRulesPath : string) : M W string :=
  let '(workDir, err) := os_Getwd in
  match err with
  | Some e => log ErrorLevel e
  | None => mret tt
  end;;
  let ruleStart :=
    if String.eqb userRulesPath "" then "" else TrimPrefix userRulesPath workDir in
  mret (TrimSuffix ruleStart PathSeparator).

Definition GetSemgrepRuleId (seqraRuleId absRulesPath ruleStart : string) : M W string :=
  if HasPrefix seqraRuleId absRulesPath then
    let newRuleId := ruleStart +:+ drop_chars (String.length absRulesPath) seqraRuleId in
    match LastIndex newRuleId ":" with
    | None =>
      log ErrorLevel ("Can't convert to semgrep RuleId format. RuleId '" +:+ seqraRuleId
                        +:+ "' doesn't contain ':'");;
      mret seqraRuleId
    | Some idStart =>
      let rulePath := take_chars idStart newRuleId in
      let justId := drop_chars (idStart + 1) newRuleId in
      let cleanedRulePath := strip_space rulePath in
      let ruleDirs := Split cleanedRulePath PathSeparator in
      let ruleDirs := removelast ruleDirs in
      mret (TrimLeft (Join ruleDirs "." +:+ "." +:+ justId) ".")
    end
  else
    log ErrorLevel ("Can't convert to semgrep RuleId format. '" +:+ seqraRuleId
                      +:+ "' not start with waited path '" +:+ absRulesPath +:+ "'");;
    mret seqraRuleId.

End Code.

End Semgrep.

(* ===================================================================== *)
(** ** Reasoning about code in [M]                                        *)
(* ===================================================================== *)



Section Facts.

Context {W : Type}.
Variable host : Host W.
Variable lib : Lib.
Variable globals : Globals.

Lemma wp_ret {A} (a : A) s pre Q :
  Q (Val a) s pre -> wp (W:=W) (mret a) s pre Q.
Proof. unfold wp; simpl. by rewrite app_nil_r. Qed.

Lemma wp_bind {A B} (m : M W A) (k : A -> M W B) s pre Q :
  wp m s pre (fun r s1 t1 =>
    match r with
    | Val a => wp (k a) s1 t1 Q
    | Return => Q Return s1 t1
    | Exit f => Q (Exit f) s1 t1
    | Panic e => Q (Panic e) s1 t1
    | Hang => Q Hang s1 t1
    end) ->
  wp (m ≫= k) s pre Q.
Proof.
  unfold wp, mbind, M_bind, bind.
  destruct (m s) as [[[a| |f|e|] s1] t1]; simpl; try done.
  destruct (k a s1) as [[r s2] t2]; simpl. by rewrite app_assoc.
Qed.

Lemma wp_call {X} (c : Call X) s pre Q :
  (forall x w, host X c (world s) = (x, w) ->
     Q (Val x) (mkSt w (defers s)) (pre ++ [observe c x])) ->
  wp (call host c) s pre Q.
Proof.
  intros H. unfold wp, call.
  destruct (host X c (world s)) as [x w] eqn:E; simpl. by apply H.
Qed.

Lemma wp_log lvl msg (s : St W) pre Q :
  Q (Val tt) s (pre ++ [Log lvl msg]) -> wp (log lvl msg) s pre Q.
Proof. done. Qed.

Lemma wp_print out (s : St W) pre Q :
  Q (Val tt) s (pre ++ [Printed out]) -> wp (print out) s pre Q.
Proof. done. Qed.

Lemma wp_fatal {A} f (s : St W) pre (Q : Res A -> _) :
  Q (Exit f) s pre -> wp (fatal f) s pre Q.
Proof. unfold wp; simpl. by rewrite app_nil_r. Qed.

Lemma wp_return {A} (s : St W) pre (Q : Res A -> _) :
  Q Return s pre -> wp return_ s pre Q.
Proof. unfold wp; simpl. by rewrite app_nil_r. Qed.

Lemma wp_hang {A} (s : St W) pre (Q : Res A -> _) :
  Q Hang s pre -> wp hang s pre Q.
Proof. unfold wp; simpl. by rewrite app_nil_r. Qed.

Lemma wp_defer d (s : St W) pre Q :
  Q (Val tt) (mkSt (world s) (d :: defers s)) pre -> wp (defer d) s pre Q.
Proof. unfold wp; simpl. by rewrite app_nil_r. Qed.

Lemma wp_check err f (s : St W) pre Q :
  (forall e, err = Some e -> Q (Exit (f e)) s pre) ->
  (err = None -> Q (Val tt) s pre) ->
  wp (check err f) s pre Q.
Proof.
  intros H1 H2. destruct err as [e|]; simpl.
  - apply wp_fatal; auto.
  - apply (wp_ret tt); auto.
Qed.

Lemma wp_must {A} (r : result A) f (s : St W) pre Q :
  (forall e, r = Err e -> Q (Exit (f e)) s pre) ->
  (forall a, r = Ok a -> Q (Val a) s pre) ->
  wp (must r f) s pre Q.
Proof.
  intros H1 H2. destruct r as [a|e]; simpl.
  - apply (wp_ret a); auto.
  - apply wp_fatal; auto.
Qed.

(** Any fact about what [m] does from [s] may be used. *)
Lemma wp_run {A} (m : M W A) s pre Q :
  (forall r s' t, m s = (r, s', t) -> Q r s' (pre ++ t)) -> wp m s pre Q.
Proof. intros H. unfold wp. apply H. by destruct (m s) as [[??]?]. Qed.

Lemma wp_mono {A} (m : M W A) s pre (Q Q' : Res A -> St W -> list Event -> Prop) :
  wp m s pre Q -> (forall r s' t, Q r s' t -> Q' r s' t) -> wp m s pre Q'.
Proof. unfold wp. auto. Qed.

Lemma wp_elim {A} (m : M W A) s pre Q r s' t :
  wp m s pre Q -> m s = (r, s', t) -> Q r s' (pre ++ t).
Proof. unfold wp. intros H E. by rewrite E in H. Qed.

End Facts.


(** One step of symbolic execution of a goal [wp m s pre Q]; a [match] or
    an [if] in the code splits the goal. *)
Ltac wp_step :=
  lazymatch goal with
  | |- wp (mbind _ _) _ _ _ => apply wp_bind
  | |- wp (mret _) _ _ _ => apply wp_ret
  | |- wp (call _ _) _ _ _ => apply wp_call; intros ? ? ?
  | |- wp (log _ _) _ _ _ => apply wp_log
  | |- wp (print _) _ _ _ => apply wp_print
  | |- wp (fatal _) _ _ _ => apply wp_fatal
  | |- wp return_ _ _ _ => apply wp_return
  | |- wp hang _ _ _ => apply wp_hang
  | |- wp (defer _) _ _ _ => apply wp_defer
  | |- wp (check _ _) _ _ _ => apply wp_check; [intros ? ?|intros ?]
  | |- wp (must _ _) _ _ _ => apply wp_must; intros ? ?
  | |- wp (match ?x with _ => _ end) _ _ _ =>
      first [is_var x; destruct x | destruct x eqn:?]
  | |- wp (let '(_, _) := ?x in _) _ _ _ => destruct x eqn:?
  end; cbv beta iota.

(* ===================================================================== *)
(** ** The progress display                                               *)
(* ===================================================================== *)

Module ProgressFacts.
Import Progress.

(** Once the decoder holds an error other than io.EOF, the loop only ever
    takes its [continue] branch. *)
Lemma loop_latched fuel rd e sc :
  loop fuel (mkDecoder rd (Some (DecodeErr e))) sc = None.
Proof. induction fuel as [|fuel IH]; simpl; auto. Qed.

Lemma loop_stuck rd :
  existsb latches rd = true ->
  forall fuel sc, loop fuel (NewDecoder rd) sc = None.
Proof.
  unfold NewDecoder.
  induction rd as [|c rd IH]; simpl; [discriminate|].
  intros H [|fuel] sc; [reflexivity|].
  destruct c as [p|e|e|]; simpl in *; auto using loop_latched.
Qed.

Lemma loop_clean rd :
  existsb latches rd = false ->
  forall fuel sc, length rd < fuel -> exists sc', loop fuel (NewDecoder rd) sc = Some sc'.
Proof.
  unfold NewDecoder.
  induction rd as [|c rd IH]; simpl; intros H fuel sc Hlt.
  - destruct fuel; [lia|]. simpl. eauto.
  - destruct fuel as [|fuel]; [lia|].
    destruct c as [p|e|e|]; simpl in *; try discriminate; apply IH; auto; lia.
Qed.

(** The loop leaves exactly on the streams in which no chunk latches an
    error, and then one iteration per chunk and one for the end suffice. *)
Lemma returns_iff rd :
  (exists fuel out, DisplayInteractiveProgress fuel rd = Some out)
  <-> existsb latches rd = false.
Proof.
  unfold DisplayInteractiveProgress. split.
  - intros (fuel & out & H).
    destruct (existsb latches rd) eqn:E; [|reflexivity].
    by rewrite (loop_stuck rd E) in H.
  - intros E. exists (S (length rd)).
    destruct (loop_clean rd E (S (length rd)) (mkScreen ∅ [] 0 [])) as [sc' ->]; [lia|].
    eauto.
Qed.

(** The fuel [acquireImage] gives the display decides whether it ever
    returns. *)
Lemma fuel_enough rd :
  DisplayInteractiveProgress (S (length rd)) rd = None ->
  forall fuel, DisplayInteractiveProgress fuel rd = None.
Proof.
  intros H fuel. destruct (existsb latches rd) eqn:E.
  - unfold DisplayInteractiveProgress. by rewrite (loop_stuck rd E).
  - unfold DisplayInteractiveProgress in H.
    destruct (loop_clean rd E (S (length rd)) (mkScreen ∅ [] 0 [])) as [sc' Hsc]; [lia|].
    by rewrite Hsc in H.
Qed.

(** C10, at a pull stream the daemon connection dropped in the middle of
    a message: after one good message the reader ends inside the next
    JSON value. [Decode] answers io.ErrUnexpectedEOF, which is not io.EOF,
    on that call and on every later one, so no number of iterations
    leaves the loop. *)
Theorem DisplayInteractiveProgress_spins_on_truncated_stream :
  forall fuel,
    DisplayInteractiveProgress fuel
      [Message (mkProgress "Downloading" "[=>   ] 1MB/9MB" "a1"); Truncated] = None.
Proof.
  intros fuel. unfold DisplayInteractiveProgress.
  by rewrite loop_stuck.
Qed.

End ProgressFacts.

(* ===================================================================== *)
(** ** Archive extraction                                                 *)
(* ===================================================================== *)

Lemma HasPrefix_app p s : HasPrefix (p +:+ s) p = true.
Proof.
  induction p as [|c p IH]; simpl; [by destruct s|].
  by rewrite Ascii.eqb_refl.
Qed.

Lemma drop_chars_app p s : drop_chars (String.length p) (p +:+ s) = s.
Proof. induction p as [|c p IH]; simpl; [by destruct s|done]. Qed.

Lemma TrimPrefix_app p s : TrimPrefix (p +:+ s) p = s.
Proof. unfold TrimPrefix. by rewrite HasPrefix_app, drop_chars_app. Qed.



Section TarFacts.

Context {W : Type}.
Variable host : Host W.
Variable lib : Lib.

Lemma entry_event_mono tr tr' base dest isDir e :
  incl tr tr' -> entry_event lib tr base dest isDir e -> entry_event lib tr' base dest isDir e.
Proof. intros Hi [H|(hdr & c & H & Ha)]; [by left|right; eauto]. Qed.

(** The handlers of an entry touch nothing but its target (and the
    directory above it), and when they report no error the entry is
    there. *)
Lemma extract_entry_wp target hdr content s pre (P : Event -> Prop) :
  Forall P pre ->
  (forall e, is_log e = true \/ addresses lib target e -> P e) ->
  wp (extract_entry host lib target hdr content) s pre (fun r s' t =>
    Forall P t /\ (exists suf, t = pre ++ suf) /\ defers s' = defers s /\
    (exists err, r = Val err /\ (err = None -> entry_written target hdr content t))).
Proof.
  intros Hpre HP. unfold extract_entry, entry_written.
  assert (Hsnoc : forall t e, Forall P t -> (is_log e = true \/ addresses lib target e) ->
                              Forall P (t ++ [e])).
  { intros t e Ht He. apply Forall_app; split; auto. }
  destruct (Ascii.eqb (Typeflag hdr) TypeDir) eqn:Ed;
    [|destruct (Ascii.eqb (Typeflag hdr) TypeReg) eqn:Er;
      [|destruct (Ascii.eqb (Typeflag hdr) TypeSymlink) eqn:Es;
        [|destruct (Ascii.eqb (Typeflag hdr) TypeXGlobalHeader) eqn:Eg]]].
  - unfold handleDirectory. repeat wp_step.
    all: split; [apply Hsnoc; simpl; auto|].
    all: split; [by eexists|]; split; [done|]; eexists; split; [done|].
    all: intros; try discriminate; apply in_or_app; right; by left.
  - unfold handleRegularFile. repeat wp_step.
    all: split; [repeat apply Hsnoc; simpl; auto|].
    all: split; [rewrite <- ?app_assoc; by eexists|]; split; [done|].
    all: eexists; split; [done|]; intros; try discriminate.
    all: split; rewrite !in_app_iff; simpl; auto 10.
  - unfold handleSymlink. repeat wp_step.
    all: split; [repeat apply Hsnoc; simpl; auto|].
    all: split; [rewrite <- ?app_assoc; by eexists|]; split; [done|].
    all: eexists; split; [done|]; intros; try discriminate.
    all: rewrite !in_app_iff; simpl; auto 10.
  - repeat wp_step. repeat split; [apply Hsnoc; simpl; auto|by eexists|]. by eexists.
  - repeat wp_step. repeat split; [apply Hsnoc; simpl; auto|by eexists|]. by eexists.
Qed.

Lemma entry_written_mono target hdr content t t' :
  (forall e, In e t -> In e t') ->
  entry_written target hdr content t -> entry_written target hdr content t'.
Proof.
  unfold entry_written. intros H.
  repeat case_match; intuition auto.
Qed.

Lemma ExtractTar_wp tr all base dest isDir s pre :
  incl tr all ->
  Forall (entry_event lib all base dest isDir) pre ->
  wp (ExtractTar host lib tr base dest isDir) s pre (fun r s' t =>
    Forall (entry_event lib all base dest isDir) t /\ (exists suf, t = pre ++ suf) /\
    defers s' = defers s /\
    exists err, r = Val err /\
      (err = None -> forall hdr c, In (Entry hdr c) tr ->
         entry_written (entry_target lib base dest isDir hdr) hdr c t)).
Proof.
  revert s pre. induction tr as [|[hdr content|e] rest IH]; intros s pre Hincl Hpre; simpl.
  - wp_step. repeat split; auto; [exists []; by rewrite app_nil_r|].
    eexists; split; [done|]. by intros _ ?? [].
  - wp_step.
    eapply wp_mono.
    { apply (extract_entry_wp _ _ _ _ pre (entry_event lib all base dest isDir)); [done|].
      intros e [H|H]; [by left|right]. exists hdr, content. split; [|done].
      apply Hincl. by left. }
    cbv beta. intros r s1 t1 (HF & [suf ->] & Hd & err & -> & Hw).
    cbv beta iota. wp_step.
    + wp_step. repeat split; auto; [by eexists|]. eexists; split; [done|discriminate].
    + eapply wp_mono.
      { apply IH; [|done]. intros x Hx. apply Hincl. by right. }
      cbv beta. intros r s2 t2 (HF2 & [suf2 ->] & Hd2 & err & -> & Hw2).
      repeat split; auto; [rewrite <- app_assoc; by eexists|congruence|].
      eexists; split; [done|]. intros -> h c [Heq|Hin].
      * inversion Heq; subst. eapply entry_written_mono; [|by apply Hw].
        intros x Hx. apply in_or_app. by left.
      * by apply Hw2.
  - wp_step. repeat split; auto; [exists []; by rewrite app_nil_r|].
    eexists; split; [done|discriminate].
Qed.

(** C7. An entry that is no directory, regular file or symlink costs one
    log line and nothing else: extraction goes on with the rest of the
    stream from the same state. So a stream of a global header followed by
    a regular file that the host can create extracts that file, at its
    target, and reports no error. *)
Theorem ExtractTar_skips_unsupported_entries :
  forall (base dest : string) (isDir : bool) (g : Header) (gc : string) (s : St W),
    Typeflag g <> TypeDir -> Typeflag g <> TypeReg -> Typeflag g <> TypeSymlink ->
    (exists lvl msg, forall rest,
       ExtractTar host lib (Entry g gc :: rest) base dest isDir s =
       let '(r, s', t) := ExtractTar host lib rest base dest isDir s in
       (r, s', Log lvl msg :: t))
    /\
    (forall f fc w1 w2 w3 w4 cerr,
       Typeflag g = TypeXGlobalHeader -> Typeflag f = TypeReg ->
       let target := entry_target lib base dest isDir f in
       host _ (os_MkdirAll (filepath_Dir lib target) 493) (world s) = (None, w1) ->
       host _ (os_Create target) w1 = (None, w2) ->
       host _ (io_Copy target fc) w2 = (None, w3) ->
       host _ (outFile_Close target) w3 = (cerr, w4) ->
       ExtractTar host lib [Entry g gc; Entry f fc] base dest isDir s =
       (Val None, mkSt w4 (defers s),
        [Log TraceLevel "Skipping global header";
         MkdirAll (filepath_Dir lib target) 493 None;
         Create target None;
         Copy target fc None;
         FileClose target cerr])).
Proof.
  intros base dest isDir g gc s Hd Hr Hs.
  apply Ascii.eqb_neq in Hd, Hr, Hs.
  assert (Hskip : exists lvl msg, forall rest,
    ExtractTar host lib (Entry g gc :: rest) base dest isDir s =
    let '(r, s', t) := ExtractTar host lib rest base dest isDir s in
    (r, s', Log lvl msg :: t)).
  { destruct (Ascii.eqb (Typeflag g) TypeXGlobalHeader) eqn:Eg.
    - exists TraceLevel, "Skipping global header". intros rest.
      simpl. unfold extract_entry. rewrite Hd, Hr, Hs, Eg.
      unfold mbind, M_bind, bind; simpl.
      by destruct (ExtractTar host lib rest base dest isDir s) as [[??]?].
    - eexists WarnLevel, _. intros rest.
      simpl. unfold extract_entry. rewrite Hd, Hr, Hs, Eg.
      unfold mbind, M_bind, bind; simpl.
      by destruct (ExtractTar host lib rest base dest isDir s) as [[??]?]. }
  split; [exact Hskip|].
  intros f fc w1 w2 w3 w4 cerr Hg Hf target H1 H2 H3 H4.
  simpl. unfold extract_entry. rewrite Hd, Hr, Hs, Hg, Hf. simpl.
  fold target. unfold handleRegularFile, mbind, M_bind, bind, call, log; simpl.
  rewrite H1; simpl. rewrite H2; simpl. rewrite H3; simpl. by rewrite H4.
Qed.

(** C8. The target of an entry is [destPath] itself when the source is
    not a directory, and [destPath] joined with what is left of the name
    after [basePath] and one separator when it is; everything extraction
    does to the host for an entry is done at that target (or creates the
    directory above it), and when extraction reports no error every entry
    of the stream has been written at its target. *)
Theorem ExtractTar_rebases_every_entry :
  forall (tr : list TarItem) (base dest : string) (isDir : bool) (s : St W) r s' t,
    ExtractTar host lib tr base dest isDir s = (r, s', t) ->
    (forall hdr, entry_target lib base dest false hdr = dest) /\
    (forall hdr rel, Name hdr = base +:+ Separator +:+ rel ->
       entry_target lib base dest true hdr = filepath_Join lib dest rel) /\
    (forall hdr, entry_target lib base dest true hdr =
       filepath_Join lib dest (TrimPrefix (TrimPrefix (Name hdr) base) Separator)) /\
    (forall e, In e t ->
       is_log e = true \/
       exists hdr c, In (Entry hdr c) tr /\
                     addresses lib (entry_target lib base dest isDir hdr) e) /\
    (r = Val None ->
     forall hdr c, In (Entry hdr c) tr ->
       entry_written (entry_target lib base dest isDir hdr) hdr c t).
Proof.
  intros tr base dest isDir s r s' t Hrun.
  split; [done|]. split.
  { intros hdr rel Hn. unfold entry_target. by rewrite Hn, !TrimPrefix_app. }
  split; [done|].
  pose proof (ExtractTar_wp tr tr base dest isDir s [] (incl_refl _) (List.Forall_nil _)) as H.
  eapply wp_elim in H; [|exact Hrun]. simpl in H.
  destruct H as (HF & _ & _ & err & -> & Hw). split.
  - intros e He. by apply (proj1 (List.Forall_forall _ _) HF).
  - intros [= ->]. by apply Hw.
Qed.

End TarFacts.

(* ===================================================================== *)
(** ** The orchestrator                                                   *)
(* ===================================================================== *)


Ltac solve_forall :=
  repeat (apply Forall_app; split); auto;
  repeat (apply List.Forall_cons; [reflexivity|]); auto.

Ltac solve_tame :=
  split; [solve_forall|split; [simpl in *; congruence|eauto 6]].

(** Use what is known of a step [m] that the code runs as a whole. *)
Ltac wp_phase lem :=
  let r := fresh "r" in let s := fresh "s" in let t := fresh "t" in
  let Hrun := fresh "Hrun" in
  apply wp_run; intros r s t Hrun; apply lem in Hrun; cbv beta iota.

Section RunFacts.

Context {W : Type}.
Variable host : Host W.
Variable lib : Lib.
Variable globals : Globals.

Lemma tame_run {A} (m : M W A) P F s r s' t :
  (forall pre, Forall (fun e => P e = true) pre -> wp m s pre (tame P F s)) ->
  m s = (r, s', t) -> tame P F s r s' t.
Proof.
  intros H Hrun. specialize (H [] (List.Forall_nil _)).
  by eapply wp_elim in H.
Qed.

Lemma tame_mono {A} P F (s0 s : St W) (r : Res A) s' t :
  defers s = defers s0 -> tame P F s r s' t -> tame P F s0 r s' t.
Proof. intros Hd (HF & Hd' & Hs). repeat split; auto. congruence. Qed.

Lemma entry_event_collect tr base dest isDir e :
  entry_event lib tr base dest isDir e -> collect_event e = true.
Proof.
  intros [H|(hdr & c & _ & H)]; destruct e; simpl in *; try done.
Qed.

Lemma ExtractTar_tame tr base dest isDir s r s' t :
  ExtractTar host lib tr base dest isDir s = (r, s', t) ->
  Forall (fun e => collect_event e = true) t /\ defers s' = defers s /\
  exists err, r = Val err.
Proof.
  intros Hrun.
  pose proof (ExtractTar_wp host lib tr tr base dest isDir s []
                (incl_refl _) (List.Forall_nil _)) as H.
  eapply wp_elim in H; [|exact Hrun]. simpl in H.
  destruct H as (HF & _ & Hd & err & -> & _).
  split; [|eauto].
  eapply List.Forall_impl; [|exact HF]. intros e. apply entry_event_collect.
Qed.

Lemma preflight_wp outs s pre :
  Forall (fun e => setup_event e = true) pre ->
  wp (preflight host outs) s pre (tame setup_event setup_fatal s).
Proof.
  revert s pre. induction outs as [|[src dst] rest IH]; intros s pre Hpre; simpl.
  - wp_step. solve_tame.
  - repeat wp_step.
    + eapply wp_mono; [apply IH; solve_forall|].
      intros r s' t. by apply tame_mono.
    + solve_tame.
Qed.

Lemma preflight_tame outs s r s' t :
  preflight host outs s = (r, s', t) -> tame setup_event setup_fatal s r s' t.
Proof. apply tame_run. intros. by apply preflight_wp. Qed.

Lemma registryAuth_tame image s r s' t :
  registryAuth host lib globals image s = (r, s', t) -> tame setup_event setup_fatal s r s' t.
Proof.
  apply tame_run. intros pre Hpre.
  unfold registryAuth, resolvePassword, encodeAuth.
  repeat wp_step; solve_tame.
Qed.

Lemma CopyToContainer_tame id localDir dst s r s' t :
  CopyToContainer host lib id localDir dst s = (r, s', t) -> tame setup_event setup_fatal s r s' t.
Proof.
  apply tame_run. intros pre Hpre.
  unfold CopyToContainer. repeat wp_step; solve_tame.
Qed.

Lemma stageInputs_wp id ins s pre :
  Forall (fun e => setup_event e = true) pre ->
  wp (stageInputs host lib id ins) s pre (tame setup_event setup_fatal s).
Proof.
  revert s pre. induction ins as [|[src dst] rest IH]; intros s pre Hpre; simpl.
  - wp_step. solve_tame.
  - repeat wp_step.
    wp_phase CopyToContainer_tame. destruct Hrun as (HF & Hd & [[err ->]|(f & -> & Hf)]).
    + repeat wp_step.
      * solve_tame.
      * eapply wp_mono; [apply IH; solve_forall|].
        intros r' s' t'. by apply tame_mono.
    + solve_tame.
Qed.

Lemma stageInputs_tame id ins s r s' t :
  stageInputs host lib id ins s = (r, s', t) -> tame setup_event setup_fatal s r s' t.
Proof. apply tame_run. intros. by apply stageInputs_wp. Qed.

Lemma CopyFileFromContainer_tame id src dst s r s' t :
  CopyFileFromContainer host lib id src dst s = (r, s', t) -> tame collect_event collect_fatal s r s' t.
Proof.
  apply tame_run. intros pre Hpre.
  unfold CopyFileFromContainer. repeat wp_step; try solve_tame.
  wp_phase ExtractTar_tame. destruct Hrun as (HF & Hd & err & ->).
  repeat wp_step; solve_tame.
Qed.

Lemma collectOutputs_wp task id outs s pre :
  Forall (fun e => collect_event e = true) pre ->
  wp (collectOutputs host lib globals task id outs) s pre (tame collect_event collect_fatal s).
Proof.
  revert s pre. induction outs as [|[src dst] rest IH]; intros s pre Hpre; simpl.
  - wp_step. solve_tame.
  - repeat wp_step.
    wp_phase CopyFileFromContainer_tame. destruct Hrun as (HF & Hd & [[err ->]|(f & -> & Hf)]).
    + repeat wp_step; try solve_tame.
      eapply wp_mono; [apply IH; solve_forall|].
      intros r' s' t'. by apply tame_mono.
    + solve_tame.
Qed.

Lemma collectOutputs_tame task id outs s r s' t :
  collectOutputs host lib globals task id outs s = (r, s', t) -> tame collect_event collect_fatal s r s' t.
Proof. apply tame_run. intros. by apply collectOutputs_wp. Qed.


(** Image acquisition leaves set-up events only, may defer the closing of
    the pull reader, and may never come back. *)
Lemma acquireImage_shape image auth s r s' t :
  acquireImage host globals image auth s = (r, s', t) ->
  Forall (fun e => setup_event e = true) t /\
  (defers s' = defers s \/ defers s' = DeferPullClose :: defers s) /\
  ((exists a, r = Val a) \/ (exists f, r = Exit f /\ setup_fatal f = true) \/ r = Hang).
Proof.
  intros Hrun.
  assert (H : wp (acquireImage host globals image auth) s [] (fun r s' t =>
    Forall (fun e => setup_event e = true) t /\
    (defers s' = defers s \/ defers s' = DeferPullClose :: defers s) /\
    ((exists a, r = Val a) \/ (exists f, r = Exit f /\ setup_fatal f = true) \/ r = Hang))).
  { unfold acquireImage, log_image.
    repeat wp_step; (split; [solve_forall|split; [simpl; auto|eauto 6]]). }
  by eapply wp_elim in H.
Qed.

Lemma run_deferred_cases d w :
  (d = DeferLogsClose false /\
   exists e, run_deferred host d (mkSt w []) = (Panic e, mkSt w [], [])) \/
  (d <> DeferLogsClose false /\
   exists e w', run_deferred host d (mkSt w []) = (Val tt, mkSt w' [], [e]) /\
     cleanup_call e = true /\
     (forall id, d = DeferKill id -> exists r, e = ContainerKill id "SIGKILL" r)).
Proof.
  destruct d as [| |id|[|]]; simpl; [right|right|right|right|left; eauto].
  all: split; [done|]; unfold mbind, M_bind, bind, call; simpl.
  all: match goal with |- context [host ?X ?c ?w0] =>
         destruct (host X c w0) as [x w1] end; simpl.
  all: eexists _, _; split; [done|split; [done|]]; intros ? [=]; subst; eauto.
Qed.

(** The deferred closures: they leave clean-up calls only; every
    deferred kill is issued; the outcome stands unless the nil log reader
    is closed, which panics. *)
Lemma unwind_spec ds : forall o w o' t,
  unwind host ds o w = (o', t) ->
  Forall (fun e => cleanup_call e = true) t /\
  (forall id, In (DeferKill id) ds -> exists r, In (ContainerKill id "SIGKILL" r) t) /\
  (~ In (DeferLogsClose false) ds -> o' = o) /\
  ((exists e, o = Panicked e) \/ In (DeferLogsClose false) ds -> exists e, o' = Panicked e).
Proof.
  induction ds as [|d ds IH]; intros o w o' t; simpl.
  - intros [= <- <-]. repeat split; auto; [by intros ? []|]. intros [H|[]]; auto.
  - destruct (run_deferred_cases d w) as [[-> [e ->]]|[Hd (e & w' & -> & Hc & Hk)]]; simpl.
    + destruct (unwind host ds (Panicked e) w) as [o2 t2] eqn:Hu.
      intros [= <- <-]. destruct (IH _ _ _ _ Hu) as (HF & Hk & Ho & Hp).
      repeat split; auto.
      * intros id [Hin|Hin]; [discriminate|]. by apply Hk.
      * intros Hn. exfalso. apply Hn. by left.
      * intros _. apply Hp. eauto.
    + destruct (unwind host ds o w') as [o2 t2] eqn:Hu.
      intros [= <- <-]. destruct (IH _ _ _ _ Hu) as (HF & Hk' & Ho & Hp).
      repeat split.
      * by apply List.Forall_cons.
      * intros id [Hin|Hin].
        -- destruct (Hk _ Hin) as [r ->]. exists r. by left.
        -- destruct (Hk' _ Hin) as [r Hr]. exists r. by right.
      * intros Hn. apply Ho. intros ?. apply Hn. by right.
      * intros [He|[Hin|Hin]]; [apply Hp; eauto|done|apply Hp; eauto].
Qed.

Lemma RunGhcrContainer_wp task image flags env hc ins outs w
    (P : Outcome * list Event -> Prop) :
  wp (RunGhcrContainer_body host lib globals task image flags env hc ins outs)
     (mkSt w []) [] (fun r s t => P (leave host r s t)) ->
  P (RunGhcrContainer host lib globals task image flags env hc ins outs w).
Proof.
  unfold wp, RunGhcrContainer. simpl.
  by destruct (RunGhcrContainer_body _ _ _ _ _ _ _ _ _ _ _) as [[r s] t].
Qed.

End RunFacts.

(** A phase summarised by a [tame] lemma: two cases, fell through or
    exited. *)
Ltac tame_phase lem :=
  let r := fresh "r" in let s := fresh "s" in let t := fresh "t" in
  let Hrun := fresh "Hrun" in let HF := fresh "HF" in let Hd := fresh "Hd" in
  let a := fresh "a" in let f := fresh "f" in let Hf := fresh "Hf" in
  let w := fresh "w" in let ds := fresh "ds" in
  apply wp_run; intros r s t Hrun; apply lem in Hrun;
  destruct Hrun as (HF & Hd & [[a ->]|(f & -> & Hf)]);
  destruct s as [w ds]; simpl in Hd; subst ds; cbv beta iota.

Ltac acquire_phase :=
  let r := fresh "r" in let s := fresh "s" in let t := fresh "t" in
  let Hrun := fresh "Hrun" in let HF := fresh "HF" in let Hd := fresh "Hd" in
  let a := fresh "a" in let f := fresh "f" in let Hf := fresh "Hf" in
  let w := fresh "w" in let ds := fresh "ds" in
  apply wp_run; intros r s t Hrun; apply acquireImage_shape in Hrun;
  destruct Hrun as (HF & [Hd|Hd] & [[a ->]|[(f & -> & Hf)| ->]]);
  destruct s as [w ds]; simpl in Hd; subst ds; cbv beta iota.

(** Symbolic execution of the body of [RunGhcrContainer]. *)
Ltac run_body :=
  unfold RunGhcrContainer_body, awaitContainer, onStatus, collectLogs;
  repeat first
    [ wp_step
    | tame_phase preflight_tame
    | tame_phase registryAuth_tame
    | acquire_phase
    | tame_phase stageInputs_tame
    | tame_phase collectOutputs_tame ].

(** The cases of [H : In e t] for a history [t] put together from single
    events and from summarised phases; impossible cases are closed. *)
Ltac in_cases H :=
  lazymatch type of H with
  | In _ (_ ++ _) =>
      apply in_app_or in H; destruct H as [H|H]; in_cases H
  | In _ (_ :: _) =>
      destruct H as [H|H]; [try discriminate H|in_cases H]
  | In _ [] => destruct H
  | In _ ?t =>
      try (match goal with
           | HF : Forall _ t |- _ =>
               apply (proj1 (List.Forall_forall _ _) HF) in H; simpl in H; discriminate H
           end)
  end.

(** At the end of the body: what the process does on leaving. *)
Ltac leave_intro :=
  let o := fresh "o" in let tr := fresh "tr" in let Hl := fresh "Hl" in
  intros o tr Hl; subst; unfold leave in Hl; cbn [defers world observe] in Hl;
  try match type of Hl with
      | context [unwind ?h ?ds ?o0 ?w0] =>
          let Hu := fresh "Hu" in
          let HFc := fresh "HFc" in let Hkill := fresh "Hkill" in
          let Hsame := fresh "Hsame" in let Hpanic := fresh "Hpanic" in
          destruct (unwind h ds o0 w0) as [? ?] eqn:Hu;
          apply unwind_spec in Hu; destruct Hu as (HFc & Hkill & Hsame & Hpanic)
      end;
  apply pair_equal_spec in Hl; destruct Hl as [? ?]; subst o tr.

(** Find an event in a history. *)
Ltac in_find :=
  lazymatch goal with
  | |- In _ (_ ++ _) => apply in_or_app; first [right; in_find|left; in_find]
  | |- In _ (_ :: _) => first [left; reflexivity|right; in_find]
  end.

Section RunTheorems.

Context {W : Type}.
Variable host : Host W.
Variable lib : Lib.
Variable globals : Globals.

(** C5. When the daemon reports a non-zero status code N for the
    container and its log has been fetched and demultiplexed, the process
    exits on the fatal error that carries N, whatever the line scanner
    made of the log; no output is collected on that run, because the exit
    code is checked, and is fatal, before output collection begins. *)
Theorem nonzero_exit_is_fatal :
  forall task image flags env hc ins outs (w : W) o tr,
    RunGhcrContainer host lib globals task image flags env hc ins outs w = (o, tr) ->
    forall id N buf,
      N <> 0%Z ->
      In (ContainerWait id (FromStatusCh N)) tr ->
      In (ContainerLogs id None) tr ->
      In (StdCopy (Ok buf)) tr ->
      o = Exited (NonZeroExitCode N) /\
      (forall i p r, ~ In (CopyFrom i p r) tr).
Proof.
  intros task image flags env hc ins outs w o tr Hrun. revert o tr Hrun.
  apply (RunGhcrContainer_wp host lib globals task image flags env hc ins outs w
    (fun x => forall o tr, x = (o, tr) -> forall id N buf, N <> 0%Z ->
       In (ContainerWait id (FromStatusCh N)) tr ->
       In (ContainerLogs id None) tr ->
       In (StdCopy (Ok buf)) tr ->
       o = Exited (NonZeroExitCode N) /\
      (forall i p r, ~ In (CopyFrom i p r) tr))).
  run_body.
  all: leave_intro; intros id N buf HN Hw Hlg Hsc.
  all: in_cases Hw.
  all: in_cases Hlg.
  all: in_cases Hsc.
  all: injection Hw as ? ?; subst.
  all: try match goal with
           | E : bool_decide (_ = 0%Z) = true |- _ =>
               apply bool_decide_eq_true in E; contradiction
           end.
  all: split; [reflexivity|intros i p r Hcf; in_cases Hcf].
Qed.

(** C2. When the error channel of the wait delivers an error for a
    started container, the process exits on it at once: neither Stop nor
    Remove is attempted. The deferred kill is issued whenever the runner
    leaves by returning (or by a panic) after the container has started. *)
Theorem wait_error_is_fatal_and_kill_runs_on_return :
  forall task image flags env hc ins outs (w : W) o tr,
    RunGhcrContainer host lib globals task image flags env hc ins outs w = (o, tr) ->
    (forall id e,
       In (ContainerWait id (FromErrCh (Some e))) tr ->
       o = Exited (RunContainerFailed e) /\
       (forall i r, ~ In (ContainerStop i r) tr) /\
       (forall i r, ~ In (ContainerRemove i r) tr)) /\
    (forall id,
       In (ContainerStart id None) tr ->
       o = Returned \/ (exists p, o = Panicked p) ->
       exists r, In (ContainerKill id "SIGKILL" r) tr).
Proof.
  intros task image flags env hc ins outs w o tr Hrun. revert o tr Hrun.
  apply (RunGhcrContainer_wp host lib globals task image flags env hc ins outs w
    (fun x => forall o tr, x = (o, tr) ->
      (forall id e,
         In (ContainerWait id (FromErrCh (Some e))) tr ->
         o = Exited (RunContainerFailed e) /\
         (forall i r, ~ In (ContainerStop i r) tr) /\
         (forall i r, ~ In (ContainerRemove i r) tr)) /\
      (forall id,
         In (ContainerStart id None) tr ->
         o = Returned \/ (exists p, o = Panicked p) ->
         exists r, In (ContainerKill id "SIGKILL" r) tr))).
  run_body.
  all: leave_intro; (split; [intros ? ? Hw|intros ? Hst Ho]).
  all: try (in_cases Hw; injection Hw as ? ?; subst;
            (split; [reflexivity|split; intros ? ? Hs; in_cases Hs])).
  all: try (destruct Ho as [Ho|[? Ho]]; discriminate Ho).
  all: in_cases Hst; injection Hst as ?; subst.
  all: match goal with
       | Hk : forall id, In (DeferKill id) _ -> _ |- exists r, In (ContainerKill ?i _ r) _ =>
           destruct (Hk i) as [r Hr]; [simpl; auto|];
           exists r; apply in_or_app; by right
       end.
Qed.


(** Past a wait that resolved with status 0 (or a nil error), with the
    log fetched and demultiplexed, only output collection stands between
    the run and Stop; Remove follows unless Stop fails. *)
Lemma clean_wait_reaches_stop :
  forall task image flags env hc ins outs (w : W) o tr,
    RunGhcrContainer host lib globals task image flags env hc ins outs w = (o, tr) ->
    forall id r,
      In (ContainerWait id r) tr ->
      r = FromErrCh None \/
      (r = FromStatusCh 0 /\ In (ContainerLogs id None) tr /\
       exists buf, In (StdCopy (Ok buf)) tr) ->
      (forall a b, o <> Exited (StepProblem a b)) ->
      (forall x, o <> Exited (CloseFileFailed x)) ->
      exists x, In (ContainerStop id x) tr /\
                (x = None -> exists y, In (ContainerRemove id y) tr).
Proof.
  intros task image flags env hc ins outs w o tr Hrun. revert o tr Hrun.
  apply (RunGhcrContainer_wp host lib globals task image flags env hc ins outs w
    (fun x => forall o tr, x = (o, tr) -> forall id r,
      In (ContainerWait id r) tr ->
      r = FromErrCh None \/
      (r = FromStatusCh 0 /\ In (ContainerLogs id None) tr /\
       exists buf, In (StdCopy (Ok buf)) tr) ->
      (forall a b, o <> Exited (StepProblem a b)) ->
      (forall x, o <> Exited (CloseFileFailed x)) ->
      exists x, In (ContainerStop id x) tr /\
                (x = None -> exists y, In (ContainerRemove id y) tr))).
  run_body.
  all: leave_intro; intros ? ? Hw Hr Hsp Hcf; in_cases Hw; injection Hw as ? ?; subst.
  all: try (eexists; split; [in_find|intros Hx; first [discriminate Hx|eexists; in_find]]).
  all: try (match goal with
            | Hf : collect_fatal ?f = true |- _ =>
                destruct f; try discriminate Hf; exfalso;
                [eapply Hsp|eapply Hcf]; reflexivity
            end).
  all: destruct Hr as [Hr|(Hr & Hlg & ? & Hsc)]; try discriminate Hr.
  all: try (injection Hr as ->;
            match goal with
            | E : bool_decide _ = false |- _ => vm_compute in E; discriminate E
            end).
  all: try (in_cases Hlg).
  all: try (in_cases Hsc).
Qed.



Lemma alike_refl {A} (x : Res A * St W * list Event) : alike x x.
Proof. done. Qed.

Lemma alike_bind {A B} (m m' : M W A) (k k' : A -> M W B) s :
  alike (m s) (m' s) ->
  (forall a s1, alike (k a s1) (k' a s1)) ->
  alike ((m ≫= k) s) ((m' ≫= k') s).
Proof.
  unfold alike, mbind, M_bind, bind.
  destruct (m s) as [[r s1] t1], (m' s) as [[r' s1'] t1']; simpl.
  intros (<- & <- & Ht) Hk. destruct r as [a| | | |]; simpl; auto.
  specialize (Hk a s1).
  destruct (k a s1) as [[r2 s2] t2], (k' a s1) as [[r2' s2'] t2']; simpl in *.
  destruct Hk as (<- & <- & Ht2). repeat split.
  unfold unlogged in *. rewrite !List.filter_app. congruence.
Qed.

Lemma collectLogs_alike scan id s :
  alike (collectLogs host (with_scan scan lib) id s) (collectLogs host lib id s).
Proof.
  unfold collectLogs.
  apply alike_bind; [apply alike_refl|]. intros err s1.
  apply alike_bind; [apply alike_refl|]. intros _ s2.
  destruct err as [e|]; [apply alike_refl|].
  apply alike_bind; [apply alike_refl|]. intros copied s3.
  apply alike_bind; [apply alike_refl|]. intros buf s4.
  change (bufio_Scan (with_scan scan lib) buf) with (scan buf).
  destruct (scan buf) as [l1 [e1|]], (bufio_Scan lib buf) as [l2 [e2|]]; done.
Qed.

Lemma awaitContainer_alike scan id s :
  alike (awaitContainer host (with_scan scan lib) id s) (awaitContainer host lib id s).
Proof.
  unfold awaitContainer.
  apply alike_bind; [apply alike_refl|]. intros [[e|]|code] s1; try apply alike_refl.
  unfold onStatus.
  repeat (apply alike_bind; [apply alike_refl|intros ? ?]).
  apply alike_bind; [apply collectLogs_alike|intros ? ?]. apply alike_refl.
Qed.

Lemma body_alike scan task image flags env hc ins outs s :
  alike (RunGhcrContainer_body host (with_scan scan lib) globals
           task image flags env hc ins outs s)
        (RunGhcrContainer_body host lib globals task image flags env hc ins outs s).
Proof.
  unfold RunGhcrContainer_body.
  repeat (apply alike_bind; [apply alike_refl|intros ? ?]).
  apply alike_bind; [apply awaitContainer_alike|intros ? ?].
  repeat (apply alike_bind; [apply alike_refl|intros ? ?]).
  apply alike_refl.
Qed.

(** Whatever the line scanner makes of the log, the process leaves the
    same way and the calls of the run are the same. *)
Lemma scanner_is_cosmetic scan task image flags env hc ins outs w :
  let a := RunGhcrContainer host (with_scan scan lib) globals
             task image flags env hc ins outs w in
  let b := RunGhcrContainer host lib globals task image flags env hc ins outs w in
  a.1 = b.1 /\ unlogged a.2 = unlogged b.2.
Proof.
  unfold RunGhcrContainer.
  pose proof (body_alike scan task image flags env hc ins outs (mkSt w [])) as H.
  destruct (RunGhcrContainer_body host (with_scan scan lib) _ _ _ _ _ _ _ _ _)
    as [[r s] t].
  destruct (RunGhcrContainer_body host lib _ _ _ _ _ _ _ _ _) as [[r' s'] t'].
  destruct H as (Hr & Hs & Ht); simpl in Hr, Hs, Ht. subst r' s'.
  unfold leave.
  destruct r as [[]| |f|e|]; simpl.
  1,2: destruct (unwind host (defers s) Returned (world s)) as [o u]; simpl.
  4: destruct (unwind host (defers s) (Panicked e) (world s)) as [o u]; simpl.
  all: split; [done|]; unfold unlogged in *; rewrite ?List.filter_app; congruence.
Qed.

(** Reading the fetched log: an error of the line scanner is logged at
    debug level and the status code is checked all the same; an error of
    the demultiplexer ends the process before anything is collected. *)
Lemma log_reading_paths :
  forall task image flags env hc ins outs (w : W) o tr,
    RunGhcrContainer host lib globals task image flags env hc ins outs w = (o, tr) ->
    (forall buf e,
       In (StdCopy (Ok buf)) tr ->
       (bufio_Scan lib buf).2 = Some e ->
       In (Log DebugLevel ("Error reading container logs: " +:+ e)) tr) /\
    (forall id N buf,
       N <> 0%Z ->
       In (ContainerWait id (FromStatusCh N)) tr ->
       In (ContainerLogs id None) tr ->
       In (StdCopy (Ok buf)) tr ->
       o = Exited (NonZeroExitCode N)) /\
    (forall e,
       In (StdCopy (Err e)) tr ->
       o = Exited (GetLogsFailed e) /\
       (forall i p r, ~ In (CopyFrom i p r) tr) /\
       (forall i r, ~ In (ContainerStop i r) tr) /\
       (forall i r, ~ In (ContainerRemove i r) tr)).
Proof.
  intros task image flags env hc ins outs w o tr Hrun. revert o tr Hrun.
  apply (RunGhcrContainer_wp host lib globals task image flags env hc ins outs w
    (fun x => forall o tr, x = (o, tr) ->
      (forall buf e,
         In (StdCopy (Ok buf)) tr ->
         (bufio_Scan lib buf).2 = Some e ->
         In (Log DebugLevel ("Error reading container logs: " +:+ e)) tr) /\
      (forall id N buf,
         N <> 0%Z ->
         In (ContainerWait id (FromStatusCh N)) tr ->
         In (ContainerLogs id None) tr ->
         In (StdCopy (Ok buf)) tr ->
         o = Exited (NonZeroExitCode N)) /\
      (forall e,
         In (StdCopy (Err e)) tr ->
         o = Exited (GetLogsFailed e) /\
         (forall i p r, ~ In (CopyFrom i p r) tr) /\
         (forall i r, ~ In (ContainerStop i r) tr) /\
         (forall i r, ~ In (ContainerRemove i r) tr)))).
  run_body.
  all: leave_intro; (split; [|split]).
  all: try (intros qbuf qerr Hsc Hscan; in_cases Hsc; injection Hsc as <-;
            match goal with
            | E : bufio_Scan lib _ = _ |- _ => rewrite E in Hscan; simpl in Hscan
            end;
            first [discriminate Hscan|injection Hscan as <-]; in_find).
  all: try (intros qid qN qbuf HN Hw Hlg Hsc; in_cases Hw; in_cases Hlg; in_cases Hsc;
            injection Hw as ? ?; subst;
            first [reflexivity
                  |match goal with
                   | E : bool_decide (_ = 0%Z) = true |- _ =>
                       apply bool_decide_eq_true in E; contradiction
                   end]).
  all: intros qerr Hsc; in_cases Hsc; injection Hsc as <-.
  all: split; [reflexivity|].
  all: split; [intros qi qp qr Hx; in_cases Hx|].
  all: split; intros qi qr Hx; in_cases Hx.
Qed.
(** C6. Fetching and reading the log can fail in three places; the one
    that is not fatal is the line scanner. Whatever it reports, lines and
    error alike, the process leaves the same way and makes the same calls:
    only log lines differ. Its error is logged at debug level, and the
    run goes on to the check of the status code, which is fatal when it
    is not zero, to output collection and, unless that fails, to Stop and
    Remove. A failure of the demultiplexer is fatal: the process exits on
    it, and neither output collection nor Stop nor Remove is reached. *)
Theorem scanner_failure_is_not_fatal :
  forall task image flags env hc ins outs (w : W) o tr,
    RunGhcrContainer host lib globals task image flags env hc ins outs w = (o, tr) ->
    (forall scan,
       let a := RunGhcrContainer host (with_scan scan lib) globals
                  task image flags env hc ins outs w in
       a.1 = o /\ unlogged a.2 = unlogged tr) /\
    (forall id buf e,
       In (ContainerWait id (FromStatusCh 0)) tr ->
       In (ContainerLogs id None) tr ->
       In (StdCopy (Ok buf)) tr ->
       (bufio_Scan lib buf).2 = Some e ->
       In (Log DebugLevel ("Error reading container logs: " +:+ e)) tr /\
       ((forall a b, o <> Exited (StepProblem a b)) ->
        (forall x, o <> Exited (CloseFileFailed x)) ->
        exists x, In (ContainerStop id x) tr /\
                  (x = None -> exists y, In (ContainerRemove id y) tr))) /\
    (forall buf e,
       In (StdCopy (Ok buf)) tr ->
       (bufio_Scan lib buf).2 = Some e ->
       In (Log DebugLevel ("Error reading container logs: " +:+ e)) tr) /\
    (forall id N buf e,
       N <> 0%Z ->
       In (ContainerWait id (FromStatusCh N)) tr ->
       In (ContainerLogs id None) tr ->
       In (StdCopy (Ok buf)) tr ->
       (bufio_Scan lib buf).2 = Some e ->
       o = Exited (NonZeroExitCode N)) /\
    (forall e,
       In (StdCopy (Err e)) tr ->
       o = Exited (GetLogsFailed e) /\
       (forall i p r, ~ In (CopyFrom i p r) tr) /\
       (forall i r, ~ In (ContainerStop i r) tr) /\
       (forall i r, ~ In (ContainerRemove i r) tr)).
Proof.
  intros task image flags env hc ins outs w o tr Hrun.
  destruct (log_reading_paths task image flags env hc ins outs w o tr Hrun)
    as (Hlogged & Hstatus & Hdemux).
  split.
  { intros scan.
    pose proof (scanner_is_cosmetic scan task image flags env hc ins outs w) as H.
    simpl in H. by rewrite Hrun in H. }
  split.
  { intros id buf e Hw Hlg Hsc Hscan. split.
    - by apply (Hlogged buf).
    - intros Hsp Hcf. eapply clean_wait_reaches_stop; eauto. }
  split; [exact Hlogged|].
  split; [|exact Hdemux].
  intros id N buf e HN Hw Hlg Hsc _. by apply (Hstatus id N buf).
Qed.

(** A history that starts with [prefix], cut at a daemon call that is not
    in [prefix]: the cut lies behind [prefix]. *)
Lemma cut_behind_prefix (prefix suf pre post : list Event) e :
  Forall (fun x => daemon_call x = false) prefix ->
  daemon_call e = true ->
  prefix ++ suf = pre ++ e :: post ->
  forall x, In x prefix -> In x pre.
Proof.
  revert pre. induction prefix as [|a p IH]; intros pre HF He Heq x Hx; [done|].
  inversion HF as [|? ? Ha HF']; subst.
  destruct pre as [|b pre]; simpl in Heq.
  - injection Heq as -> _. congruence.
  - injection Heq as -> Heq. destruct Hx as [->|Hx]; [by left|right; eauto].
Qed.

Lemma leave_extends r (s : St W) t : exists suf, (leave host r s t).2 = t ++ suf.
Proof.
  unfold leave. destruct r as [a| |f|e|].
  1,2: destruct (unwind host (defers s) Returned (world s)) as [o u]; by exists u.
  2: destruct (unwind host (defers s) (Panicked e) (world s)) as [o u]; by exists u.
  all: exists []; by rewrite app_nil_r.
Qed.

(** The pre-flight loop stops at the first destination that exists, and
    otherwise has asked for every one of them. *)
Lemma preflight_cases outs : forall (s : St W) r s' t,
  preflight host outs s = (r, s', t) ->
  Forall (fun e => daemon_call e = false) t /\
  ((exists d, r = Exit (FileAlreadyExist d) /\ In d (map snd outs) /\ In (Stat d None) t) \/
   (r = Val tt /\ forall d, In d (map snd outs) -> exists e, In (Stat d (Some e)) t)).
Proof.
  induction outs as [|[src d0] rest IH]; intros s r s' t; simpl.
  - intros [= <- <- <-]. split; [done|]. right. split; [done|]. by intros ? [].
  - unfold mbind, M_bind, bind, call; simpl.
    destruct (host _ (os_Stat d0) (world s)) as [[e|] w1]; simpl.
    + destruct (preflight host rest (mkSt w1 (defers s))) as [[r1 s1] t1] eqn:E.
      destruct (IH _ _ _ _ E) as (HF & Hc).
      intros Heq. assert (r = r1 /\ t = Stat d0 (Some e) :: t1) as [-> ->].
      { by destruct r1; injection Heq as <- <- <-. }
      split; [by apply List.Forall_cons|].
      destruct Hc as [(d & -> & Hin & Hst)|[-> Hall]]; [left|right].
      * exists d. repeat split; [by right|by right].
      * split; [done|]. intros d [<-|Hd]; [exists e; by left|].
        destruct (Hall d Hd) as [e' He']. exists e'. by right.
    + intros [= <- <- <-]. split; [by repeat constructor|]. left.
      exists d0. repeat split; by left.
Qed.

(** With a host whose [os.Stat] changes nothing, the loop exits at a
    destination that exists as soon as there is one. *)
Lemma preflight_conflict outs :
  (forall p w, (host _ (os_Stat p) w).2 = w) ->
  forall (w : W) ds src dest,
    In (src, dest) outs ->
    (host _ (os_Stat dest) w).1 = None ->
    exists d t,
      In d (map snd outs) /\ (host _ (os_Stat d) w).1 = None /\
      preflight host outs (mkSt w ds) = (Exit (FileAlreadyExist d), mkSt w ds, t) /\
      Forall (fun e => is_log e = false /\ daemon_call e = false) t.
Proof.
  intros Hro w ds src dest. induction outs as [|[src0 d0] rest IH]; intros Hin Hex; [done|].
  simpl. unfold mbind, M_bind, bind, call; simpl.
  pose proof (Hro d0 w) as Hw.
  destruct (host _ (os_Stat d0) w) as [[e|] w1] eqn:E; simpl in Hw; subst w1.
  - destruct Hin as [[= -> ->]|Hin]; [rewrite E in Hex; discriminate|].
    destruct (IH Hin Hex) as (d & t & Hd & Hst & -> & HF).
    exists d, (Stat d0 (Some e) :: t).
    split; [by right|]. split; [done|]. split; [done|].
    by apply List.Forall_cons.
  - exists d0, [Stat d0 None]. rewrite E.
    split; [by left|]. split; [done|]. split; [done|].
    by repeat constructor.
Qed.

(** C3. When some output destination exists before the run (and [os.Stat]
    leaves the host as it is), the process exits on the pre-flight error
    for an existing destination, and the history of the run holds no call
    on the Docker client: none was created, nothing pulled, no container
    made. In every run, each output destination has been looked up
    before the first call on the Docker client. *)
Theorem preflight_conflict_creates_nothing :
  forall task image flags env hc ins outs,
    (forall (w : W) pre e post,
       (RunGhcrContainer host lib globals task image flags env hc ins outs w).2
         = pre ++ e :: post ->
       daemon_call e = true ->
       forall d, In d (map snd outs) -> exists r, In (Stat d r) pre) /\
    (forall (w : W) src dest,
       (forall p w', (host _ (os_Stat p) w').2 = w') ->
       In (src, dest) outs ->
       (host _ (os_Stat dest) w).1 = None ->
       exists d tr,
         In d (map snd outs) /\ (host _ (os_Stat d) w).1 = None /\
         RunGhcrContainer host lib globals task image flags env hc ins outs w
           = (Exited (FileAlreadyExist d), tr) /\
         Forall (fun e => daemon_call e = false) tr).
Proof.
  intros task image flags env hc ins outs. split; [|intros w src dest Hro Hin Hex].
  2: { destruct (preflight_conflict outs Hro w [] src dest Hin Hex)
      as (d & t & Hd & Hst & Hpre & HF).
    exists d. eexists. split; [done|]. split; [done|].
    unfold RunGhcrContainer, RunGhcrContainer_body.
    unfold mbind, M_bind, bind, log; simpl. rewrite Hpre. simpl. split; [done|].
    repeat (apply List.Forall_cons; [done|]).
    eapply List.Forall_impl; [|exact HF]. by intros ? [_ ?]. }
  - intros w pre e post.
    apply (RunGhcrContainer_wp host lib globals task image flags env hc ins outs w
      (fun x => x.2 = pre ++ e :: post -> daemon_call e = true ->
         forall d, In d (map snd outs) -> exists r, In (Stat d r) pre)).
    unfold RunGhcrContainer_body. repeat wp_step.
    apply wp_run. intros r s t Hrun.
    destruct (preflight_cases _ _ _ _ _ Hrun) as (HF & [(d0 & -> & _)|[-> Hall]]).
    + simpl. intros Heq He. exfalso.
      assert (Hall : Forall (fun x => daemon_call x = false) (pre ++ e :: post)).
      { rewrite <- Heq. solve_forall. }
      apply Forall_app in Hall as [_ Hall]. inversion Hall; congruence.
    + cbv beta iota. apply wp_run. intros r1 s1 t1 _.
      match goal with
      | |- (leave host r1 s1 (?P ++ t1)).2 = _ -> _ =>
          destruct (leave_extends r1 s1 (P ++ t1)) as [suf Hsuf];
          rewrite Hsuf, <- (app_assoc P t1 suf)
      end.
      intros Heq He d Hd.
      destruct (Hall d Hd) as [e0 He0]. exists (Some e0).
      eapply cut_behind_prefix; [|exact He|exact Heq|].
      * solve_forall.
      * apply in_or_app. by right.
Qed.

(** C4. Acquisition, by the answers to the pull and to the inspect that
    follows it. A failed pull with a successful inspect is a success that
    hands on the inspected (cached) image; a failed pull with a failed
    inspect exits on the pull error; and when the pull itself succeeded,
    acquisition can only fail on a failed inspect, and exits on the
    inspect error. *)
Theorem cached_image_survives_failed_pull :
  forall image auth (s : St W),
    match host _ (cli_ImagePull image auth) (world s) with
    | (Err pullErr, w1) =>
        match host _ (cli_ImageInspect image) w1 with
        | (Ok meta, w2) =>
            exists t,
              acquireImage host globals image auth s = (Val meta, mkSt w2 (defers s), t) /\
              In (ImagePull image auth (Err pullErr)) t /\
              In (ImageInspected image (Ok meta)) t
        | (Err inspectErr, w2) =>
            acquireImage host globals image auth s =
            (Exit (UseImageFailed image pullErr), mkSt w2 (defers s),
             [ImagePull image auth (Err pullErr); ImageInspected image (Err inspectErr)])
        end
    | (Ok reader, w1) =>
        forall f s' t,
          acquireImage host globals image auth s = (Exit f, s', t) ->
          exists inspectErr,
            f = UseImageFailed image inspectErr /\
            In (ImageInspected image (Err inspectErr)) t
    end.
Proof.
  intros image auth s.
  destruct (host _ (cli_ImagePull image auth) (world s)) as [[reader|pullErr] w1] eqn:Hp.
  - intros f s' t Hrun.
    assert (H : wp (acquireImage host globals image auth) s [] (fun r _ t =>
      forall f, r = Exit f ->
        exists inspectErr, f = UseImageFailed image inspectErr /\
                           In (ImageInspected image (Err inspectErr)) t)).
    { unfold acquireImage, log_image. repeat wp_step.
      all: intros f0 [=]; subst.
      all: try match goal with
               | H1 : host _ (cli_ImagePull _ _) _ = (Err _, _) |- _ =>
                   rewrite Hp in H1; discriminate H1
               end.
      all: eexists; split; [reflexivity|in_find]. }
    eapply wp_elim in H; [|exact Hrun]. by apply H.
  - unfold acquireImage, log_image, mbind, M_bind, bind, call. rewrite Hp. simpl.
    destruct (host _ (cli_ImageInspect image) w1) as [[meta|inspectErr] w2]; simpl; [|done].
    destruct (RepoTags meta) as [|? [|? ?]], (RepoDigests meta) as [|? [|? ?]]; simpl.
    all: eexists; split; [reflexivity|split; [by left|right; by left]].
Qed.


End RunTheorems.
(* ===================================================================== *)
(** ** Concrete runs                                                      *)
(* ===================================================================== *)

Module Runs.
Import Demo.

(** Find an event in a computed history. *)
Ltac present := vm_compute; repeat (first [left; reflexivity|right]).

(** No event of a computed history has the shape of [H]'s. *)
Ltac absent H := vm_compute in H; repeat (destruct H as [H|H]; [discriminate H|]); destruct H.




(** C2, as stated, fails when the error channel of the wait fires for a
    started container: the process exits, and no kill, no Stop and no
    Remove is in the history. *)
Lemma wait_error_leaves_the_container_running :
  let run := Demo.run wait_fails None "" in
  In (ContainerStart container None) run.2 /\
  In (ContainerWait container (FromErrCh (Some "connection reset by peer"))) run.2 /\
  run.1 = Exited (RunContainerFailed "connection reset by peer") /\
  (forall i sig r, ~ In (ContainerKill i sig r) run.2) /\
  (forall i r, ~ In (ContainerStop i r) run.2) /\
  (forall i r, ~ In (ContainerRemove i r) run.2).
Proof.
  cbv zeta. split; [present|]. split; [present|]. split; [by vm_compute|].
  split; [intros i sig r H; absent H|]. split; intros i r H; absent H.
Qed.

(** C2 at two runs: the wait error is fatal with Stop and Remove left
    out, and the run of the README, which returns, has issued the kill. *)
Lemma wait_error_witness :
  (Demo.run wait_fails None "").1 = Exited (RunContainerFailed "connection reset by peer") /\
  (forall i r, ~ In (ContainerStop i r) (Demo.run wait_fails None "").2) /\
  exists r, In (ContainerKill container "SIGKILL" r) (Demo.run ok None "").2.
Proof.
  assert (Hw : In (ContainerWait container (FromErrCh (Some "connection reset by peer")))
                  (Demo.run wait_fails None "").2) by present.
  assert (Hs : In (ContainerStart container None) (Demo.run ok None "").2) by present.
  destruct (proj1 (wait_error_is_fatal_and_kill_runs_on_return
                     (scripted wait_fails) (lib None) (config "") _ _ _ _ _ _ _ _ _ _
                     (surjective_pairing (Demo.run wait_fails None ""))) _ _ Hw)
    as (Ho & Hstop & _).
  split; [exact Ho|]. split; [exact Hstop|].
  apply (proj2 (wait_error_is_fatal_and_kill_runs_on_return
                  (scripted ok) (lib None) (config "") _ _ _ _ _ _ _ _ _ _
                  (surjective_pairing (Demo.run ok None ""))) _ Hs).
  left. by vm_compute.
Defined.

(** C5, as stated, fails when demultiplexing the log of a container that
    exited with status 3 fails: log collection failed, and the fatal
    error is the log's, not the one that carries 3. *)
Lemma failed_demux_hides_the_exit_code :
  let run := Demo.run exit3_demux_fails None "" in
  In (ContainerWait container (FromStatusCh 3)) run.2 /\
  In (StdCopy (Err "unrecognized input header")) run.2 /\
  run.1 = Exited (GetLogsFailed "unrecognized input header") /\
  run.1 <> Exited (NonZeroExitCode 3).
Proof.
  cbv zeta. split; [present|]. split; [present|]. split; by vm_compute.
Qed.

(** C5 at a container that exits with status 3 and whose log the scanner
    fails to split. *)
Lemma nonzero_exit_witness :
  let run := Demo.run exit3 (Some "bufio.Scanner: token too long") "" in
  run.1 = Exited (NonZeroExitCode 3) /\ (forall i p r, ~ In (CopyFrom i p r) run.2).
Proof.
  cbv zeta.
  apply (nonzero_exit_is_fatal
           (scripted exit3) (lib (Some "bufio.Scanner: token too long")) (config "")
           _ _ _ _ _ _ _ _ _ _
           (surjective_pairing (Demo.run exit3 (Some "bufio.Scanner: token too long") ""))
           container 3%Z "BUILD OK").
  - lia.
  - present.
  - present.
  - present.
Defined.

(** C6, as stated, fails when demultiplexing the fetched log fails: the
    failure is fatal, and the run reaches neither output collection nor
    Stop nor Remove. *)
Lemma failed_demux_is_fatal :
  let run := Demo.run demux_fails None "" in
  In (ContainerWait container (FromStatusCh 0)) run.2 /\
  In (StdCopy (Err "unrecognized input header")) run.2 /\
  run.1 = Exited (GetLogsFailed "unrecognized input header") /\
  (forall i p r, ~ In (CopyFrom i p r) run.2) /\
  (forall i r, ~ In (ContainerStop i r) run.2) /\
  (forall i r, ~ In (ContainerRemove i r) run.2).
Proof.
  cbv zeta. split; [present|]. split; [present|]. split; [by vm_compute|].
  split; [intros i p r H; absent H|]. split; intros i r H; absent H.
Qed.

(** C6 at the run of the README with a scanner that fails: the error is
    logged at debug level, the runner returns all the same, and Stop and
    Remove are called. *)
Lemma scanner_failure_witness :
  let run := Demo.run ok (Some "bufio.Scanner: token too long") "" in
  run.1 = (Demo.run ok None "").1 /\
  In (Log DebugLevel "Error reading container logs: bufio.Scanner: token too long") run.2 /\
  exists x, In (ContainerStop container x) run.2 /\
            (x = None -> exists y, In (ContainerRemove container y) run.2).
Proof.
  cbv zeta.
  pose proof (scanner_failure_is_not_fatal
                (scripted ok) (lib (Some "bufio.Scanner: token too long")) (config "")
                _ _ _ _ _ _ _ _ _ _
                (surjective_pairing (Demo.run ok (Some "bufio.Scanner: token too long") "")))
    as (Hsame & Hlog & _).
  split; [by vm_compute|].
  assert (Hw : In (ContainerWait container (FromStatusCh 0))
                  (Demo.run ok (Some "bufio.Scanner: token too long") "").2) by present.
  assert (Hg : In (ContainerLogs container None)
                  (Demo.run ok (Some "bufio.Scanner: token too long") "").2) by present.
  assert (Hc : In (StdCopy (Ok "BUILD OK"))
                  (Demo.run ok (Some "bufio.Scanner: token too long") "").2) by present.
  destruct (Hlog container "BUILD OK" "bufio.Scanner: token too long" Hw Hg Hc eq_refl)
    as [Hl Hgo].
  split; [exact Hl|].
  apply Hgo; intros; vm_compute; discriminate.
Defined.

(** C3 at a run whose output destination is there already. *)
Lemma preflight_conflict_witness :
  exists tr,
    Demo.run clobber None "" = (Exited (FileAlreadyExist "/host/out"), tr) /\
    Forall (fun e => daemon_call e = false) tr.
Proof.
  destruct (proj2 (preflight_conflict_creates_nothing
                     (scripted clobber) (lib None) (config "")
                     "Compile" image ["--project-root-dir"; "/data/project"]
                     ["CONTAINER_UID=1000"] (mkHostConfig [])
                     [("/host/proj", "/data/project")] [("/data/build", "/host/out")])
                  (existing clobber) "/data/build" "/host/out")
    as (d & tr & Hd & _ & Hrun & HF).
  - intros p w'. reflexivity.
  - by left.
  - reflexivity.
  - exists tr. split; [|exact HF].
    destruct Hd as [<-|[]]. exact Hrun.
Defined.

(** C4 at a pull that fails for an image the daemon has. *)
Lemma cached_image_witness :
  exists t,
    acquireImage (scripted offline) (config "") image "" (mkSt (existing offline) [])
      = (Val metadata, mkSt (existing offline) [], t) /\
    In (ImagePull image "" (Err "dial tcp: i/o timeout")) t /\
    In (ImageInspected image (Ok metadata)) t.
Proof.
  exact (cached_image_survives_failed_pull
           (scripted offline) (config "") image "" (mkSt (existing offline) [])).
Defined.


(** C7 at a global header, and at a stream of a global header and a
    class file. *)
Lemma skipped_entry_witness :
  ExtractTar (scripted ok) (lib None) [Entry pax_header ""; Entry class_file "cafebabe"]
             "build" "/host/out" true (mkSt [] [])
  = (Val None, mkSt ["/host/out/classes/A.class"; "/host/out/classes"] [],
     [Log TraceLevel "Skipping global header";
      MkdirAll "/host/out/classes" 493 None;
      Create "/host/out/classes/A.class" None;
      Copy "/host/out/classes/A.class" "cafebabe" None;
      FileClose "/host/out/classes/A.class" None]).
Proof.
  assert (Hd : Typeflag pax_header <> TypeDir) by discriminate.
  assert (Hr : Typeflag pax_header <> TypeReg) by discriminate.
  assert (Hs : Typeflag pax_header <> TypeSymlink) by discriminate.
  exact (proj2 (ExtractTar_skips_unsupported_entries
                  (scripted ok) (lib None) "build" "/host/out" true pax_header ""
                  (mkSt [] []) Hd Hr Hs)
               class_file "cafebabe" _ _ _ _ None eq_refl eq_refl
               eq_refl eq_refl eq_refl eq_refl).
Defined.

(** C8 at the archive of the README. *)
Lemma rebased_entry_witness :
  entry_target (lib None) "build" "/host/out" true class_file = "/host/out/classes/A.class" /\
  forall e,
    In e (ExtractTar (scripted ok) (lib None)
            [Entry build_dir ""; Entry class_file "cafebabe"]
            "build" "/host/out" true (mkSt [] [])).2 ->
    is_log e = true \/
    exists hdr c,
      In (Entry hdr c) [Entry build_dir ""; Entry class_file "cafebabe"] /\
      addresses (lib None) (entry_target (lib None) "build" "/host/out" true hdr) e.
Proof.
  destruct (ExtractTar_rebases_every_entry
              (scripted ok) (lib None) [Entry build_dir ""; Entry class_file "cafebabe"]
              "build" "/host/out" true (mkSt [] []) _ _ _
              (surjective_pairing _ ))
    as (_ & Hrel & _ & Hev & _).
  split; [|exact Hev].
  by rewrite (Hrel class_file "classes/A.class" eq_refl).
Defined.

End Runs.

(* ===================================================================== *)
(** ** The progress display, frame by frame                               *)
(* ===================================================================== *)

Module DisplayFacts.
Import Progress Display.
Lemma loop_more fuel dec sc sc' :
  loop fuel dec sc = Some sc' -> forall fuel', fuel <= fuel' -> loop fuel' dec sc = Some sc'.
Proof.
  revert dec sc. induction fuel as [|fuel IH]; intros dec sc H fuel' Hle; [discriminate|].
  destruct fuel' as [|fuel']; [lia|]. simpl in *.
  destruct (Decode dec) as [[p| |e] dec']; auto; apply IH; auto; lia.
Qed.

Lemma loop_clean_any rd :
  existsb latches rd = false ->
  forall sc, exists sc', forall fuel, length rd < fuel -> loop fuel (NewDecoder rd) sc = Some sc'.
Proof.
  intros E sc.
  destruct (ProgressFacts.loop_clean rd E (S (length rd)) sc) as [sc' H]; [lia|].
  exists sc'. intros fuel Hlt. eapply loop_more; [exact H|lia].
Qed.

(** X1. [DisplayInteractiveProgress] returns exactly on the streams in
    which no chunk is a syntax error or a truncated value: on those it
    prints the same output for every number of iterations above the
    number of chunks, and on the others no number of iterations leaves
    the loop. *)
Theorem display_returns_exactly_on_clean_streams rd :
  (existsb latches rd = false ->
   exists out, forall fuel, length rd < fuel -> DisplayInteractiveProgress fuel rd = Some out) /\
  (existsb latches rd = true ->
   forall fuel, DisplayInteractiveProgress fuel rd = None).
Proof.
  split; intros E.
  - destruct (loop_clean_any rd E (mkScreen ∅ [] 0 [])) as [sc' H].
    exists (stdout sc' ++ erase (outputLines sc')). intros fuel Hlt.
    unfold DisplayInteractiveProgress. by rewrite H.
  - intros fuel. unfold DisplayInteractiveProgress. by rewrite ProgressFacts.loop_stuck.
Qed.

Lemma loop_skip_mismatch rd : forall sc,
  loop (S (length rd)) (NewDecoder rd) sc =
  loop (S (length (List.filter keep rd))) (NewDecoder (List.filter keep rd)) sc.
Proof.
  unfold NewDecoder.
  induction rd as [|c rd IH]; intros sc; [reflexivity|].
  destruct c as [p|e|e|].
  - change (List.filter keep (Message p :: rd)) with (Message p :: List.filter keep rd).
    simpl length. simpl loop at 1. 
    change (loop (S (S (length (List.filter keep rd))))
              {| input := Message p :: List.filter keep rd; err := None |} sc)
      with (loop (S (length (List.filter keep rd)))
              {| input := List.filter keep rd; err := None |} (render p sc)).
    apply IH.
  - change (List.filter keep (Mismatch e :: rd)) with (List.filter keep rd).
    rewrite <- IH. reflexivity.
  - change (List.filter keep (Garbage e :: rd)) with (Garbage e :: List.filter keep rd).
    simpl. by rewrite !ProgressFacts.loop_latched.
  - change (List.filter keep (Truncated :: rd)) with (Truncated :: List.filter keep rd).
    simpl. by rewrite !ProgressFacts.loop_latched.
Qed.

Lemma loop_enough rd sc fuel :
  length rd < fuel -> loop fuel (NewDecoder rd) sc = loop (S (length rd)) (NewDecoder rd) sc.
Proof.
  intros Hlt. destruct (existsb latches rd) eqn:E.
  - by rewrite !ProgressFacts.loop_stuck.
  - destruct (loop_clean_any rd E sc) as [sc' H]. rewrite !H; [done|lia|lia].
Qed.

Lemma filter_keep_length rd : length (List.filter keep rd) <= length rd.
Proof. induction rd as [|c rd IH]; simpl; [lia|]. destruct (keep c); simpl; lia. Qed.

(** X2. A complete JSON value that does not fit the struct is skipped
    without a trace: the display prints the same for a stream and for the
    stream without such values. *)
Theorem mismatched_values_leave_no_trace rd fuel :
  length rd < fuel ->
  DisplayInteractiveProgress fuel rd = DisplayInteractiveProgress fuel (List.filter keep rd).
Proof.
  intros Hlt. unfold DisplayInteractiveProgress.
  rewrite (loop_enough rd) by done.
  rewrite (loop_enough (List.filter keep rd)) by (pose proof (filter_keep_length rd); lia).
  by rewrite (loop_skip_mismatch rd).
Qed.

Lemma mismatched_values_witness :
  let rd := [Message (mkProgress "Downloading" "1MB/9MB" "a1"); Mismatch "cannot unmarshal";
             Message (mkProgress "Pull complete" "" "a1")] in
  DisplayInteractiveProgress 4 rd =
  DisplayInteractiveProgress 4
    [Message (mkProgress "Downloading" "1MB/9MB" "a1"); Message (mkProgress "Pull complete" "" "a1")].
Proof.
  cbv zeta. apply (mismatched_values_leave_no_trace
    [Message (mkProgress "Downloading" "1MB/9MB" "a1"); Mismatch "cannot unmarshal";
     Message (mkProgress "Pull complete" "" "a1")] 4). simpl. lia.
Defined.

Lemma count_newlines_app s1 s2 :
  count_newlines (s1 +:+ s2) = count_newlines s1 + count_newlines s2.
Proof. induction s1 as [|c s1 IH]; simpl; [done|]. rewrite IH. lia. Qed.

(** The count the redraw keeps is the number of newlines it printed. *)
Lemma redraw_newlines m order :
  (redraw m order).2 = newlines (redraw m order).1.
Proof.
  unfold newlines.
  induction order as [|id rest IH]; simpl; [done|].
  destruct (redraw m rest) as [out n]. simpl in IH.
  destruct (m !! id) as [status|]; simpl; [|done].
  rewrite count_newlines_app, IH. simpl. lia.
Qed.

Lemma render_layers p sc :
  layers (render p sc) = <[layer_key p := layer_line p]> (layers sc).
Proof.
  unfold render, layer_key, layer_line.
  destruct (String.eqb (ID p) ""); [|destruct (String.eqb (ProgressText p) "")];
    match goal with |- context [redraw ?m ?o] => destruct (redraw m o) end; reflexivity.
Qed.

Lemma render_order p sc :
  layerOrder (render p sc) =
  if String.eqb (ID p) "" then layerOrder sc ++ [layer_key p]
  else match layers sc !! layer_key p with
       | Some _ => layerOrder sc
       | None => layerOrder sc ++ [layer_key p]
       end.
Proof.
  unfold render, layer_key.
  destruct (String.eqb (ID p) ""); [|destruct (String.eqb (ProgressText p) "")];
    match goal with |- context [redraw ?m ?o] => destruct (redraw m o) end; reflexivity.
Qed.

Lemma render_stdout p sc :
  stdout (render p sc) =
  stdout sc ++ erase (outputLines sc)
    ++ (redraw (layers (render p sc)) (layerOrder (render p sc))).1
  /\ outputLines (render p sc) = (redraw (layers (render p sc)) (layerOrder (render p sc))).2.
Proof.
  unfold render.
  destruct (String.eqb (ID p) ""); [|destruct (String.eqb (ProgressText p) "")];
    match goal with |- context [redraw ?m ?o] => destruct (redraw m o) eqn:E end; simpl;
    rewrite E; done.
Qed.

(** X3. Every iteration of the loop that decoded a message erases as
    many lines as the iteration before counted, prints the new frame,
    and counts for the next erasing exactly the newlines it printed. *)
Theorem every_iteration_erases_the_last_frame_and_counts_the_new_one p sc :
  stdout (render p sc) = stdout sc ++ erase (outputLines sc) ++ frame (render p sc) /\
  outputLines (render p sc) = newlines (frame (render p sc)).
Proof.
  destruct (render_stdout p sc) as [H1 H2]. split; [exact H1|].
  rewrite H2. apply redraw_newlines.
Qed.

Lemma loop_fold rd : forall fuel sc sc',
  loop fuel (NewDecoder rd) sc = Some sc' ->
  sc' = fold_left (fun sc p => render p sc) (messages rd) sc.
Proof.
  unfold NewDecoder.
  induction rd as [|c rd IH]; intros [|fuel] sc sc'; try discriminate; simpl.
  - by intros [= ->].
  - destruct c as [p|e|e|]; simpl.
    + apply IH.
    + apply IH.
    + by rewrite ProgressFacts.loop_latched.
    + by rewrite ProgressFacts.loop_latched.
Qed.

Lemma fold_snoc (ps : list progress) p sc :
  fold_left (fun sc p => render p sc) (ps ++ [p]) sc =
  render p (fold_left (fun sc p => render p sc) ps sc).
Proof. by rewrite fold_left_app. Qed.

Lemma last_frame ps p sc0 :
  let sc := fold_left (fun sc p => render p sc) (ps ++ [p]) sc0 in
  (exists before, stdout sc = before ++ frame sc) /\ outputLines sc = newlines (frame sc).
Proof.
  cbv zeta. rewrite fold_snoc.
  destruct (render_stdout p (fold_left (fun sc p => render p sc) ps sc0)) as [H1 H2].
  split.
  - rewrite H1. eexists. rewrite app_assoc. reflexivity.
  - rewrite H2. apply redraw_newlines.
Qed.

Lemma redraw_in m order k st :
  m !! k = Some st -> In k order -> In (st +:+ NL) (redraw m order).1.
Proof.
  intros Hk. induction order as [|id rest IH]; simpl; [done|].
  intros [->|Hin].
  - destruct (redraw m rest) as [out n]. rewrite Hk. by left.
  - specialize (IH Hin). destruct (redraw m rest) as [out n].
    destruct (m !! id); simpl in *; auto.
Qed.

Lemma render_keeps_order p sc k : In k (layerOrder sc) -> In k (layerOrder (render p sc)).
Proof.
  rewrite render_order. intros H.
  destruct (String.eqb (ID p) ""); [|destruct (layers sc !! layer_key p)]; auto;
    apply in_or_app; by left.
Qed.

Lemma render_lists_key p sc :
  (forall k, is_Some (layers sc !! k) -> In k (layerOrder sc)) ->
  In (layer_key p) (layerOrder (render p sc)).
Proof.
  intros Hinv. rewrite render_order.
  destruct (String.eqb (ID p) ""); [apply in_or_app; right; by left|].
  destruct (layers sc !! layer_key p) eqn:E; [apply Hinv; by rewrite E|].
  apply in_or_app; right; by left.
Qed.

Lemma listed_keys ps : forall sc,
  (forall k, is_Some (layers sc !! k) -> In k (layerOrder sc)) ->
  forall k, is_Some (layers (fold_left (fun sc p => render p sc) ps sc) !! k) ->
            In k (layerOrder (fold_left (fun sc p => render p sc) ps sc)).
Proof.
  induction ps as [|p ps IH]; intros sc Hinv; simpl; [done|].
  apply IH. intros k. rewrite render_layers.
  destruct (decide (k = layer_key p)) as [->|Hne].
  - intros _. by apply render_lists_key.
  - rewrite lookup_insert_ne by done. intros H. apply render_keeps_order. auto.
Qed.

Lemma later_messages_keep_it ps : forall (sc : Screen) (k line : string),
  (forall q, In q ps -> layer_key q <> k) ->
  layers sc !! k = Some line -> In k (layerOrder sc) ->
  layers (fold_left (fun sc p => render p sc) ps sc) !! k = Some line /\ In k (layerOrder (fold_left (fun sc p => render p sc) ps sc)).
Proof.
  induction ps as [|p ps IH]; intros sc k line Hne Hl Hin; simpl; [done|].
  apply IH.
  - intros q Hq. apply Hne. by right.
  - rewrite render_layers, lookup_insert_ne; [done|]. apply Hne. by left.
  - by apply render_keeps_order.
Qed.

Lemma messages_app rd1 rd2 : messages (rd1 ++ rd2) = messages rd1 ++ messages rd2.
Proof. unfold messages. apply omap_app. Qed.

Lemma in_messages q rd : In q (messages rd) -> In (Message q) rd.
Proof.
  unfold messages. induction rd as [|c rd IH]; simpl; [done|].
  destruct c as [p|e|e|]; simpl; intuition congruence.
Qed.

(** X5. When the display returns, what it printed ends with a frame and
    the erasing of that frame, and the frame holds, for every message of
    the stream with no later message under the same key, the line of
    that message: every layer is shown with its latest status. *)
Theorem last_frame_shows_the_latest_line_of_every_layer rd1 p rd2 fuel out :
  DisplayInteractiveProgress fuel (rd1 ++ Message p :: rd2) = Some out ->
  (forall q, In (Message q) rd2 -> layer_key q <> layer_key p) ->
  exists before shown,
    out = before ++ shown ++ erase  (newlines shown) /\ In (layer_line p +:+ NL) shown.
Proof.
  unfold DisplayInteractiveProgress. intros Hrun Hlater.
  destruct (loop fuel _ _) as [sc|] eqn:Hloop; [|discriminate].
  injection Hrun as <-. apply loop_fold in Hloop.
  rewrite messages_app in Hloop. change (messages (Message p :: rd2)) with (p :: messages rd2) in Hloop.
  assert (Hshown : layers sc !! layer_key p = Some (layer_line p) /\ In (layer_key p) (layerOrder sc)).
  { subst sc. rewrite fold_left_app. simpl.
    apply later_messages_keep_it.
    - intros q Hq. apply Hlater. by apply in_messages.
    - rewrite render_layers. apply lookup_insert_eq.
    - apply render_lists_key. apply listed_keys. simpl. intros k [x Hx]. by rewrite lookup_empty in Hx. }
  destruct Hshown as [Hl Hin].
  assert (Hlast : (exists before, stdout sc = before ++ frame sc) /\ outputLines sc = newlines (frame sc)).
  { destruct (messages rd1 ++ p :: messages rd2) as [|x l] eqn:E using rev_ind.
    - by destruct (messages rd1).
    - subst sc. apply last_frame. }
  destruct Hlast as [[before Hb] Hn].
  exists before, (frame sc). split.
  - by rewrite Hb, Hn, <- app_assoc.
  - by apply (redraw_in _ _ (layer_key p)).
Qed.

Lemma last_frame_witness :
  let rd := [Message (mkProgress "Downloading" "1MB/9MB" "a1");
             Message (mkProgress "Pull complete" "" "a1");
             Message (mkProgress "Waiting" "" "b2")] in
  exists out, DisplayInteractiveProgress 4 rd = Some out /\
    exists before shown,
      out = before ++ shown ++ erase (newlines shown) /\
      In ("a1: Pull complete" +:+ NL) shown.
Proof.
  cbv zeta. eexists. split; [vm_compute; reflexivity|].
  apply (last_frame_shows_the_latest_line_of_every_layer
           [Message (mkProgress "Downloading" "1MB/9MB" "a1")]
           (mkProgress "Pull complete" "" "a1")
           [Message (mkProgress "Waiting" "" "b2")] 4).
  - vm_compute; reflexivity.
  - intros q [[= <-]|[]] E. vm_compute in E. discriminate E.
Defined.

Lemma redraw_repeat (m : gmap string string) k st n :
  m !! k = Some st ->
  redraw m (repeat k n) = (repeat (st +:+ NL) n, n * (count_newlines st + 1)).
Proof.
  intros Hk. induction n as [|n IH]; simpl; [done|].
  rewrite IH, Hk. f_equal; lia.
Qed.

Lemma repeat_snoc {A} (a : A) n : repeat a (S n) = repeat a n ++ [a].
Proof. apply repeat_cons. Qed.

Lemma repeated_status_screen st pt n :
  let sc := fold_left (fun sc p => render p sc) (repeat (mkProgress st pt "") n)
                      (mkScreen ∅ [] 0 []) in
  layerOrder sc = repeat ("message_" +:+ st) n /\
  (0 < n -> layers sc !! ("message_" +:+ st) = Some st).
Proof.
  cbv zeta. induction n as [|n IH]; [split; [done|simpl; lia]|].
  rewrite repeat_snoc, fold_snoc. destruct IH as [IHo IHl].
  rewrite render_order, render_layers. simpl. split.
  - rewrite IHo. symmetry. apply repeat_cons.
  - intros _. apply lookup_insert_eq.
Qed.

Lemma messages_repeat p n : messages (repeat (Message p) n) = repeat p n.
Proof.
  induction n as [|n IH]; [done|].
  change (messages (repeat (Message p) (S n))) with (p :: messages (repeat (Message p) n)).
  by rewrite IH.
Qed.

Lemma repeat_clean p n : existsb latches (repeat (Message p) n) = false.
Proof. induction n as [|n IH]; simpl; auto. Qed.

(** X4. A message without an ID is appended to the order of the layers
    each time it occurs, also when its key is there already: after k+1
    messages with the same status and no ID, the last frame shows that
    status k+1 times. *)
Theorem status_without_id_is_drawn_once_per_occurrence st pt k :
  exists before,
    DisplayInteractiveProgress (S (S k)) (repeat (Message (mkProgress st pt "")) (S k)) =
    Some (before ++ repeat (st +:+ NL) (S k) ++ erase (S k * (count_newlines st + 1))).
Proof.
  unfold DisplayInteractiveProgress.
  destruct (ProgressFacts.loop_clean _ (repeat_clean (mkProgress st pt "") (S k))
              (S (S k)) (mkScreen ∅ [] 0 [])) as [sc Hloop].
  { rewrite repeat_length. lia. }
  rewrite Hloop. apply loop_fold in Hloop.
  rewrite messages_repeat in Hloop.
  destruct (repeated_status_screen st pt (S k)) as [Ho Hl]. rewrite <- Hloop in Ho, Hl.
  specialize (Hl ltac:(lia)).
  assert (Hf : redraw (layers sc) (layerOrder sc)
               = (repeat (st +:+ NL) (S k), S k * (count_newlines st + 1))).
  { rewrite Ho. by apply redraw_repeat. }
  assert (Hlast : (exists before, stdout sc = before ++ frame sc) /\
                  outputLines sc = newlines (frame sc)).
  { rewrite Hloop. rewrite repeat_snoc. apply last_frame. }
  destruct Hlast as [[before Hb] Hn].
  exists before. f_equal. rewrite Hb, <- app_assoc. f_equal.
  unfold frame. rewrite Hf. simpl. f_equal.
  destruct (render_stdout (mkProgress st pt "")
              (fold_left (fun sc p => render p sc) (repeat (mkProgress st pt "") k)
                         (mkScreen ∅ [] 0 []))) as [_ H2].
  rewrite <- fold_snoc, <- repeat_snoc in H2. rewrite <- Hloop in H2.
  rewrite H2, Hf. reflexivity.
Qed.

Lemma ids_screen ps :
  Forall (fun p => ID p <> "") ps ->
  let sc := fold_left (fun sc p => render p sc) ps (mkScreen ∅ [] 0 []) in
  layerOrder sc = first_seen (map ID ps) /\
  (forall k, is_Some (layers sc !! k) <-> In k (map ID ps)).
Proof.
  cbv zeta. induction ps as [|p ps IH] using rev_ind; intros Hall.
  - split; [done|]. intros k. simpl. rewrite lookup_empty. split; [by intros [??]|done].
  - apply Forall_app in Hall as [Hps Hp]. apply List.Forall_inv in Hp.
    destruct (IH Hps) as [IHo IHl]. rewrite fold_snoc.
    rewrite render_order, render_layers.
    assert (Hkey : layer_key p = ID p).
    { unfold layer_key. by destruct (String.eqb_spec (ID p) ""). }
    destruct (String.eqb_spec (ID p) "") as [|_]; [done|]. rewrite Hkey.
    rewrite map_app. simpl. split.
    + unfold first_seen. rewrite reverse_app. simpl.
      assert (Hseen : ID p ∈ reverse (map ID ps) <-> is_Some (layers
                (fold_left (fun sc p => render p sc) ps (mkScreen ∅ [] 0 [])) !! ID p)).
      { by rewrite elem_of_reverse, list_elem_of_In, IHl. }
      destruct (decide_rel elem_of (ID p) (reverse (map ID ps))) as [Hin|Hnin].
      * apply Hseen in Hin as [x ->]. exact IHo.
      * destruct (layers _ !! ID p) eqn:E; [exfalso; apply Hnin, Hseen; eauto|].
        rewrite reverse_cons. by rewrite IHo.
    + intros k. rewrite in_app_iff. simpl.
      destruct (decide (k = ID p)) as [->|Hne].
      * rewrite lookup_insert_eq. split; [auto|by eexists].
      * rewrite lookup_insert_ne by done. rewrite IHl. intuition congruence.
Qed.

Lemma redraw_length (m : gmap string string) order :
  (forall k, In k order -> is_Some (m !! k)) ->
  length (redraw m order).1 = length order.
Proof.
  induction order as [|id rest IH]; simpl; [done|]. intros Hlisted.
  destruct (redraw m rest) as [out n] eqn:E. simpl in IH.
  destruct (Hlisted id (or_introl eq_refl)) as [st ->]. simpl.
  f_equal. apply IH. intros k Hk. apply Hlisted. by right.
Qed.

(** X6. On a stream whose messages all carry an ID, the layers are
    listed in the order in which their IDs were first seen, each once,
    and the frame has one line (or block of lines) for each. *)
Theorem layers_are_listed_once_in_first_seen_order rd fuel sc :
  loop fuel (NewDecoder rd) (mkScreen ∅ [] 0 []) = Some sc ->
  (forall p, In (Message p) rd -> ID p <> "") ->
  layerOrder sc = first_seen (map ID (messages rd)) /\
  NoDup (layerOrder sc) /\
  length (frame sc) = length (layerOrder sc).
Proof.
  intros Hloop Hids. apply loop_fold in Hloop.
  assert (Hall : Forall (fun p => ID p <> "") (messages rd)).
  { apply List.Forall_forall. intros p Hp. apply Hids. by apply in_messages. }
  destruct (ids_screen _ Hall) as [Ho Hl]. rewrite <- Hloop in Ho, Hl.
  split; [exact Ho|]. split.
  - rewrite Ho. unfold first_seen. rewrite reverse_Permutation. apply NoDup_remove_dups.
  - unfold frame.
    assert (Hlisted : forall k, In k (layerOrder sc) -> is_Some (layers sc !! k)).
    { intros k Hk. apply Hl. rewrite Ho in Hk. unfold first_seen in Hk.
      rewrite <- list_elem_of_In in Hk |- *.
      by rewrite elem_of_reverse, elem_of_remove_dups, elem_of_reverse in Hk. }
    by apply redraw_length.
Qed.

Lemma layers_listed_witness :
  let rd := [Message (mkProgress "Pulling fs layer" "" "b2");
             Message (mkProgress "Downloading" "1MB/9MB" "a1");
             Message (mkProgress "Pull complete" "" "b2")] in
  exists sc, loop 4 (NewDecoder rd) (mkScreen ∅ [] 0 []) = Some sc /\
    layerOrder sc = ["b2"; "a1"] /\
    NoDup (layerOrder sc) /\
    length (frame sc) = length (layerOrder sc).
Proof.
  cbv zeta. eexists. split; [reflexivity|].
  apply (layers_are_listed_once_in_first_seen_order
           [Message (mkProgress "Pulling fs layer" "" "b2");
            Message (mkProgress "Downloading" "1MB/9MB" "a1");
            Message (mkProgress "Pull complete" "" "b2")] 4).
  - reflexivity.
  - intros p [[= <-]|[[= <-]|[[= <-]|[]]]]; discriminate.
Defined.

End DisplayFacts.


(* ===================================================================== *)
(** ** Extraction and the two copies, path by path                        *)
(* ===================================================================== *)

Section CopyFacts.

Context {W : Type}.
Variable host : Host W.
Variable lib : Lib.

(** X7. Extraction is sequential and not atomic: extracting a stream
    that continues another is extracting the first part and, if that
    reported no error, the rest from the state it left; when the first
    part fails or the reader reports an error, the result is that of the
    first part alone: what was written stays, and nothing of the rest is
    touched. *)
Theorem ExtractTar_stops_at_the_first_failure :
  forall (tr1 tr2 : list TarItem) (base dest : string) (isDir : bool) (s : St W),
    ExtractTar host lib (tr1 ++ tr2) base dest isDir s =
    match ExtractTar host lib tr1 base dest isDir s with
    | (Val None, s1, t1) =>
        let '(r, s2, t2) := ExtractTar host lib tr2 base dest isDir s1 in (r, s2, t1 ++ t2)
    | stopped => stopped
    end.
Proof.
  intros tr1 tr2 base dest isDir.
  induction tr1 as [|[hdr c|e] rest IH]; intros s.
  - simpl. by destruct (ExtractTar host lib tr2 base dest isDir s) as [[r s2] t2].
  - change ((Entry hdr c :: rest) ++ tr2) with (Entry hdr c :: (rest ++ tr2)).
    simpl. unfold mbind, M_bind, bind.
    destruct (extract_entry host lib _ hdr c s) as [[[[e|]| | | |] s1] t1]; simpl; try done.
    rewrite IH.
    destruct (ExtractTar host lib rest base dest isDir s1) as [[[[e|]| | | |] s2] t2]; simpl;
      try done.
    destruct (ExtractTar host lib tr2 base dest isDir s2) as [[r s3] t3]; simpl.
    by rewrite app_assoc.
  - reflexivity.
Qed.

(** X8. Once [handleRegularFile] has created the file, it copies the
    contents and closes the file whether the copy failed or not, and the
    result depends on the copy alone: an error of [Close] is never
    reported. *)
Theorem handleRegularFile_closes_the_file_and_drops_the_close_error :
  forall (content target : string) (hdr : Header) (s : St W) r s' t,
    handleRegularFile host lib content target hdr s = (r, s', t) ->
    In (Create target None) t ->
    exists cr cl,
      t = [MkdirAll (filepath_Dir lib target) 493 None; Create target None;
           Copy target content cr; FileClose target cl] /\
      r = Val (match cr with
               | Some e => Some ("failed to copy contents to " +:+ target +:+ ": " +:+ e)
               | None => None
               end).
Proof.
  intros content target hdr s r s' t.
  unfold handleRegularFile, mbind, M_bind, bind, call, mret, M_ret, ret. simpl.
  destruct (host _ (os_MkdirAll (filepath_Dir lib target) 493) (world s)) as [[e1|] w1]; simpl.
  { intros [= <- <- <-] [H|[]]. discriminate H. }
  destruct (host _ (os_Create target) w1) as [[e2|] w2]; simpl.
  { intros [= <- <- <-] [H|[H|[]]]; discriminate H. }
  destruct (host _ (io_Copy target content) w2) as [cr w3]; simpl.
  destruct (host _ (outFile_Close target) w3) as [cl w4]; simpl.
  destruct cr as [e3|]; simpl; intros [= <- <- <-] _; by eexists _, _.
Qed.

(** The three ways through [CopyFileFromContainer]. *)
Lemma CopyFileFromContainer_cases id src dst (s : St W) r s' t :
  CopyFileFromContainer host lib id src dst s = (r, s', t) ->
  (t = [Stat dst None] /\ r = Val (Some ("file already exists: " +:+ dst))) \/
  (exists e e', t = [Stat dst (Some e); CopyFrom id src (Err e')] /\
                r = Val (Some ("failed to copy from container: " +:+ e'))) \/
  (exists e tr stat mid cl err,
     t = Stat dst (Some e) :: CopyFrom id src (Ok (tr, stat)) :: mid ++ [ReaderClose cl] /\
     Forall (entry_event lib tr (StatName stat) dst (IsDir stat)) mid /\
     (err = None -> forall hdr c, In (Entry hdr c) tr ->
        entry_written (entry_target lib (StatName stat) dst (IsDir stat) hdr) hdr c mid) /\
     r = match cl, err with
         | Some ce, _ => Exit (CloseFileFailed ce)
         | None, Some x => Val (Some ("failed to extract tar archive: " +:+ x))
         | None, None => Val None
         end).
Proof.
  unfold CopyFileFromContainer, mbind, M_bind, bind, call. simpl.
  destruct (host _ (os_Stat dst) (world s)) as [[e|] w1]; simpl;
    [|intros [= <- <- <-]; by left].
  destruct (host _ (cli_CopyFromContainer id src) w1) as [[[tr stat]|e'] w2]; simpl;
    [|intros [= <- <- <-]; right; left; by eexists _, _].
  destruct (ExtractTar host lib tr (StatName stat) dst (IsDir stat) (mkSt w2 (defers s)))
    as [[rx sx] tx] eqn:Hx.
  pose proof (ExtractTar_wp host lib tr tr (StatName stat) dst (IsDir stat) (mkSt w2 (defers s)) []
                (incl_refl _) (List.Forall_nil _)) as H.
  eapply wp_elim in H; [|exact Hx]. simpl in H.
  destruct H as (HF & _ & _ & err & -> & Hw). simpl.
  destruct (host _ reader_Close (world sx)) as [cl w3]; simpl.
  intros Hrun. right; right. exists e, tr, stat, tx, cl, err.
  destruct cl as [ce|], err as [x|]; simpl in Hrun; injection Hrun as <- <- <-; auto.
Qed.

(** X9. [CopyFileFromContainer] returns nil only when the destination
    was not there, the daemon delivered the archive, every entry of the
    archive was written at its target below the destination, and the
    reader was closed without error; between the daemon call and the
    close it touched nothing but the targets of the entries. *)
Theorem CopyFileFromContainer_reports_success_only_when_all_is_written :
  forall id src dst (s s' : St W) t,
    CopyFileFromContainer host lib id src dst s = (Val None, s', t) ->
    exists e tr stat mid,
      t = Stat dst (Some e) :: CopyFrom id src (Ok (tr, stat)) :: mid ++ [ReaderClose None] /\
      (forall hdr c, In (Entry hdr c) tr ->
         entry_written (entry_target lib (StatName stat) dst (IsDir stat) hdr) hdr c mid) /\
      (forall x, In x mid -> entry_event lib tr (StatName stat) dst (IsDir stat) x).
Proof.
  intros id src dst s s' t Hrun.
  apply CopyFileFromContainer_cases in Hrun
    as [[_ H]|[(e & e' & _ & H)|(e & tr & stat & mid & cl & err & -> & HF & Hw & H)]];
    try discriminate H.
  destruct cl as [ce|], err as [x|]; try discriminate H.
  exists e, tr, stat, mid. split; [done|]. split; [by apply Hw|].
  by apply List.Forall_forall.
Qed.

(** X10. When the destination exists, [CopyFileFromContainer] does
    nothing but report it: no daemon call, no file operation. When the
    daemon delivered an archive, the reader is closed last, whatever
    extraction did, and an error of that close ends the process. *)
Theorem CopyFileFromContainer_never_overwrites_and_always_closes_the_reader :
  forall id src dst (s s' : St W) r t,
    CopyFileFromContainer host lib id src dst s = (r, s', t) ->
    (In (Stat dst None) t ->
       t = [Stat dst None] /\ r = Val (Some ("file already exists: " +:+ dst))) /\
    (forall a, In (CopyFrom id src (Ok a)) t ->
       exists before cl, t = before ++ [ReaderClose cl] /\
         (forall ce, cl = Some ce -> r = Exit (CloseFileFailed ce))).
Proof.
  intros id src dst s s' r t Hrun.
  apply CopyFileFromContainer_cases in Hrun
    as [[-> ->]|[(e & e' & -> & ->)|(e & tr & stat & mid & cl & err & -> & HF & Hw & ->)]].
  - split; [done|]. intros a [H|[]]. discriminate H.
  - split; [intros [H|[H|[]]]; discriminate H|]. intros a [H|[H|[]]]; discriminate H.
  - split.
    + intros [H|[H|H]]; try discriminate H.
      apply in_app_or in H as [H|[H|[]]]; [|discriminate H].
      apply (proj1 (List.Forall_forall _ _) HF) in H as [H|(? & ? & _ & H)]; done.
    + intros a _. exists (Stat dst (Some e) :: CopyFrom id src (Ok (tr, stat)) :: mid), cl.
      split; [done|]. by intros ce ->.
Qed.

(** The ways through [CopyToContainer]. *)
Lemma CopyToContainer_cases id localDir dest (s : St W) r s' t :
  CopyToContainer host lib id localDir dest s = (r, s', t) ->
  (exists e, t = [Stat localDir (Some e)] /\ r = Val (Some ("cannot stat local path: " +:+ e))) \/
  (exists e, t = [Stat localDir None;
                  TarWithOptions (filepath_Dir lib localDir) (filepath_Base lib localDir) dest (Some e)] /\
             r = Val (Some ("failed to create tar archive: " +:+ e))) \/
  (exists err cl,
     t = [Stat localDir None;
          TarWithOptions (filepath_Dir lib localDir) (filepath_Base lib localDir) dest None;
          CopyTo id "/" err; TarClose cl] /\
     r = match cl, err with
         | Some ce, _ => Exit (CloseTarStreamFailed ce)
         | None, Some x => Val (Some ("failed to copy to container: " +:+ x))
         | None, None => Val None
         end).
Proof.
  unfold CopyToContainer, mbind, M_bind, bind, call. simpl.
  destruct (host _ (os_Stat localDir) (world s)) as [[e|] w1]; simpl;
    [intros [= <- <- <-]; left; by eexists|].
  destruct (host _ (archive_TarWithOptions _ _ dest) w1) as [[e|] w2]; simpl;
    [intros [= <- <- <-]; right; left; by eexists|].
  destruct (host _ (cli_CopyToContainer id "/") w2) as [err w3]; simpl.
  destruct (host _ tarStream_Close w3) as [cl w4]; simpl.
  intros Hrun. right; right. exists err, cl.
  destruct cl as [ce|], err as [x|]; simpl in Hrun; injection Hrun as <- <- <-; auto.
Qed.

(** X11. [CopyToContainer] returns nil exactly when its history is: the
    local path was found, the archive of its base name in the directory
    above it, rebased to the destination, was opened, the archive was
    uploaded, and the archive was closed, each without error. Whatever it
    uploads goes to the root of the given container. *)
Theorem CopyToContainer_success_is_four_calls :
  forall id localDir dest (s s' : St W) r t,
    CopyToContainer host lib id localDir dest s = (r, s', t) ->
    (r = Val None <->
     t = [Stat localDir None;
          TarWithOptions (filepath_Dir lib localDir) (filepath_Base lib localDir) dest None;
          CopyTo id "/" None; TarClose None]) /\
    (forall i d x, In (CopyTo i d x) t -> i = id /\ d = "/").
Proof.
  intros id localDir dest s s' r t Hrun.
  apply CopyToContainer_cases in Hrun
    as [(e & -> & ->)|[(e & -> & ->)|(err & cl & -> & ->)]].
  - split; [split; intros H; discriminate H|]. intros i d x [H|[]]. discriminate H.
  - split; [split; intros H; discriminate H|]. intros i d x [H|[H|[]]]; discriminate H.
  - split.
    + destruct cl as [ce|], err as [x|]; split; intros H; try discriminate H; done.
    + intros i d x [H|[H|[H|[H|[]]]]]; try discriminate H. by injection H as <- <- _.
Qed.

(** X12. When the local path cannot be examined, [CopyToContainer]
    reports it and does nothing else. When the archive was opened, it is
    closed last, also after a failed upload, and an error of that close
    ends the process. *)
Theorem CopyToContainer_failures :
  forall id localDir dest (s s' : St W) r t,
    CopyToContainer host lib id localDir dest s = (r, s', t) ->
    (forall e, In (Stat localDir (Some e)) t ->
       t = [Stat localDir (Some e)] /\ r = Val (Some ("cannot stat local path: " +:+ e))) /\
    (forall a b c, In (TarWithOptions a b c None) t ->
       exists before cl, t = before ++ [TarClose cl] /\
         (forall ce, cl = Some ce -> r = Exit (CloseTarStreamFailed ce))).
Proof.
  intros id localDir dest s s' r t Hrun.
  apply CopyToContainer_cases in Hrun
    as [(e & -> & ->)|[(e & -> & ->)|(err & cl & -> & ->)]].
  - split.
    + intros e0 [H|[]]. by injection H as <-.
    + intros a b c [H|[]]. discriminate H.
  - split.
    + intros e0 [H|[H|[]]]; discriminate H.
    + intros a b c [H|[H|[]]]; discriminate H.
  - split.
    + intros e0 [H|[H|[H|[H|[]]]]]; discriminate H.
    + intros a b c _. eexists [_; _; _], cl. split; [done|]. by intros ce ->.
Qed.

End CopyFacts.


(* ===================================================================== *)
(** ** The orchestrator, phase by phase                                   *)
(* ===================================================================== *)

Section RunDetails.

Context {W : Type}.
Variable host : Host W.
Variable lib : Lib.
Variable globals : Globals.

Lemma preflight_stage outs s r s' t :
  preflight host outs s = (r, s', t) -> tame stage_event setup_fatal s r s' t.
Proof.
  apply tame_run. intros pre. revert s pre.
  induction outs as [|[src dst] rest IH]; intros s pre Hpre; simpl.
  - wp_step. solve_tame.
  - repeat wp_step.
    + eapply wp_mono; [apply IH; solve_forall|].
      intros r0 s0 t0. by apply tame_mono.
    + solve_tame.
Qed.

Lemma registryAuth_stage image s r s' t :
  registryAuth host lib globals image s = (r, s', t) -> tame stage_event setup_fatal s r s' t.
Proof.
  apply tame_run. intros pre Hpre.
  unfold registryAuth, resolvePassword, encodeAuth.
  repeat wp_step; solve_tame.
Qed.

Lemma staged_mono id t t' x :
  (forall e, In e t -> In e t') -> staged lib id t x -> staged lib id t' x.
Proof. intros H [H1 H2]. split; auto. Qed.

Lemma stageInputs_detail id ins : forall s r s' t,
  stageInputs host lib id ins s = (r, s', t) ->
  tame stage_event setup_fatal s r s' t /\
  (forall a, r = Val a -> Forall (staged lib id t) ins).
Proof.
  induction ins as [|[src dst] rest IH]; intros s r s' t Hrun.
  - simpl in Hrun. injection Hrun as <- <- <-. split; [solve_tame|]. intros _ _. constructor.
  - assert (H : wp (stageInputs host lib id ((src, dst) :: rest)) s [] (fun r s' t =>
      tame stage_event setup_fatal s r s' t /\
      (forall a, r = Val a -> Forall (staged lib id t) ((src, dst) :: rest)))).
    { simpl. repeat wp_step.
      apply wp_run. intros r1 s1 t1 Hrun1.
      pose proof (CopyToContainer_tame _ _ _ _ _ _ _ _ _ Hrun1) as (_ & Hd & _).
      apply CopyToContainer_cases in Hrun1
        as [(e & -> & ->)|[(e & -> & ->)|(err & cl & -> & ->)]].
      1,2: repeat wp_step; (split; [solve_tame|intros ? [=]]).
      destruct cl as [ce|]; [split; [solve_tame|intros ? [=]]|].
      destruct err as [x|]; [repeat wp_step; (split; [solve_tame|intros ? [=]])|].
      cbv beta iota.
      apply wp_run. intros r2 s2 t2 Hrun2. apply IH in Hrun2 as [(HF & Hd2 & Hr) Hs].
      split; [solve_tame|].
      intros a Ha. specialize (Hs a Ha). constructor.
      - split; cbn [fst snd]; in_find.
      - eapply List.Forall_impl; [|exact Hs]. intros x. apply staged_mono.
        intros e He. apply in_or_app. by right. }
    by eapply wp_elim in H.
Qed.

Lemma collected_mono id t t' x :
  (forall e, In e t -> In e t') -> collected lib id t x -> collected lib id t' x.
Proof.
  intros H (e & tr & stat & H1 & H2 & H3). exists e, tr, stat.
  split; [auto|]. split; [auto|]. intros hdr c Hin.
  eapply entry_written_mono; [exact H|]. by apply H3.
Qed.

Lemma collectOutputs_detail task id outs : forall s r s' t,
  collectOutputs host lib globals task id outs s = (r, s', t) ->
  tame collect_event collect_fatal s r s' t /\
  (forall a, r = Val a -> Forall (collected lib id t) outs).
Proof.
  induction outs as [|[src dst] rest IH]; intros s r s' t Hrun.
  - simpl in Hrun. injection Hrun as <- <- <-. split; [solve_tame|]. intros _ _. constructor.
  - assert (H : wp (collectOutputs host lib globals task id ((src, dst) :: rest)) s []
      (fun r s' t =>
        tame collect_event collect_fatal s r s' t /\
        (forall a, r = Val a -> Forall (collected lib id t) ((src, dst) :: rest)))).
    { simpl. repeat wp_step.
      apply wp_run. intros r1 s1 t1 Hrun1.
      pose proof (CopyFileFromContainer_tame _ _ _ _ _ _ _ _ _ Hrun1) as (HF1 & Hd & _).
      apply CopyFileFromContainer_cases in Hrun1
        as [[-> ->]|[(e & e' & -> & ->)|(e & tr & stat & mid & cl & err & -> & HFm & Hw & ->)]].
      1,2: repeat wp_step; (split; [solve_tame|intros ? [=]]).
      destruct cl as [ce|]; [split; [solve_tame|intros ? [=]]|].
      destruct err as [x|]; [repeat wp_step; (split; [solve_tame|intros ? [=]])|].
      cbv beta iota.
      apply wp_run. intros r2 s2 t2 Hrun2. apply IH in Hrun2 as [(HF & Hd2 & Hr) Hs].
      split; [solve_tame|].
      intros a Ha. specialize (Hs a Ha). constructor.
      - exists e, tr, stat. cbn [fst snd]. split; [in_find|]. split; [in_find|].
        intros hdr c Hin. eapply entry_written_mono; [|by apply Hw].
        intros x Hx. apply in_or_app; left. apply in_or_app; right.
        right. right. apply in_or_app. by left.
      - eapply List.Forall_impl; [|exact Hs]. intros x. apply collected_mono.
        intros x0 He. apply in_or_app. by right. }
    by eapply wp_elim in H.
Qed.

Lemma display_latched rd fuel :
  existsb Progress.latches rd = true -> Progress.DisplayInteractiveProgress fuel rd = None.
Proof.
  intros E. unfold Progress.DisplayInteractiveProgress. by rewrite ProgressFacts.loop_stuck.
Qed.

Lemma display_none rd :
  Progress.DisplayInteractiveProgress (S (length rd)) rd = None ->
  existsb Progress.latches rd = true.
Proof.
  intros H. destruct (existsb Progress.latches rd) eqn:E; [done|].
  destruct (proj2 (ProgressFacts.returns_iff rd) E) as (fuel & out & Hout).
  by rewrite (ProgressFacts.fuel_enough rd H fuel) in Hout.
Qed.

(** Image acquisition in detail: a result means the image was inspected;
    it never comes back exactly when the display is on and the pull stream
    latches an error, and then the image is not inspected. *)
Lemma acquireImage_detail image auth s r s' t :
  acquireImage host globals image auth s = (r, s', t) ->
  (forall a, r = Val a -> In (ImageInspected image (Ok a)) t) /\
  (forall ref x rd, In (ImagePull ref x (Ok rd)) t ->
     existsb Progress.latches rd = true -> Quiet globals = false -> r = Hang) /\
  (r = Hang ->
     Quiet globals = false /\
     (exists rd, In (ImagePull image auth (Ok rd)) t /\ existsb Progress.latches rd = true) /\
     (forall ref x, ~ In (ImageInspected ref x) t)) /\
  (Quiet globals = true -> forall out, ~ In (Printed out) t) /\
  (forall ref x y, In (ImagePull ref x y) t -> ref = image /\ x = auth).
Proof.
  intros Hrun.
  assert (H : wp (acquireImage host globals image auth) s [] (fun r s' t =>
    (forall a, r = Val a -> In (ImageInspected image (Ok a)) t) /\
    (forall ref x rd, In (ImagePull ref x (Ok rd)) t ->
       existsb Progress.latches rd = true -> Quiet globals = false -> r = Hang) /\
    (r = Hang ->
       Quiet globals = false /\
       (exists rd, In (ImagePull image auth (Ok rd)) t /\ existsb Progress.latches rd = true) /\
       (forall ref x, ~ In (ImageInspected ref x) t)) /\
    (Quiet globals = true -> forall out, ~ In (Printed out) t) /\
    (forall ref x y, In (ImagePull ref x y) t -> ref = image /\ x = auth))).
  { unfold acquireImage, log_image.
    repeat wp_step.
    all: cbn [observe].
    all: split; [intros ? [= <-]; in_find|].
    all: split;
      [intros ref x0 rd Hp Hl Hq;
       first [discriminate Hq|reflexivity
             |in_cases Hp; injection Hp as <- <- <-;
              match goal with
              | E : Progress.DisplayInteractiveProgress _ _ = Some _ |- _ =>
                  rewrite (display_latched _ _ Hl) in E; discriminate E
              end]|].
    all: split;
      [intros Hh; try discriminate Hh;
       (split; [reflexivity|];
        split; [eexists; split; [in_find|by apply display_none]|];
        intros ref x0 Hi; in_cases Hi)|].
    all: split; [intros Hq out Hp; first [discriminate Hq|in_cases Hp]|].
    all: intros ref x0 y Hp; in_cases Hp; by injection Hp as <- <- _. }
  by eapply wp_elim in H.
Qed.

(** The deferred closures run last registered first, each leaving its
    event, when the log reader they close is not nil. *)
Lemma unwind_order ds : forall o w o' t,
  ~ In (DeferLogsClose false) ds ->
  unwind host ds o w = (o', t) ->
  o' = o /\ Forall2 deferred_event ds t.
Proof.
  induction ds as [|d ds IH]; intros o w o' t Hn; simpl.
  - intros [= <- <-]. split; [done|constructor].
  - assert (Hn' : ~ In (DeferLogsClose false) ds) by (intros ?; apply Hn; by right).
    destruct d as [| |id|[|]]; simpl; [| | | |exfalso; apply Hn; by left].
    all: unfold mbind, M_bind, bind, call; simpl.
    all: match goal with |- context [host ?X ?c ?w0] =>
           destruct (host X c w0) as [x w1] end; simpl.
    all: destruct (unwind host ds o w1) as [o2 t2] eqn:Hu; intros [= <- <-].
    all: destruct (IH _ _ _ _ Hn' Hu) as [-> HF]; split; [done|].
    all: constructor; [simpl; auto|exact HF].
Qed.

End RunDetails.

Ltac detail_phase lem :=
  let r := fresh "r" in let s := fresh "s" in let t := fresh "t" in
  let Hrun := fresh "Hrun" in let HF := fresh "HF" in let Hd := fresh "Hd" in
  let a := fresh "a" in let f := fresh "f" in let Hf := fresh "Hf" in
  let w := fresh "w" in let ds := fresh "ds" in let Hall := fresh "Hall" in
  apply wp_run; intros r s t Hrun; apply lem in Hrun;
  destruct Hrun as ((HF & Hd & [[a ->]|(f & -> & Hf)]) & Hall);
  destruct s as [w ds]; simpl in Hd; subst ds; cbv beta iota;
  [specialize (Hall _ eq_refl)|clear Hall].

Ltac acquire_detail :=
  let r := fresh "r" in let s := fresh "s" in let t := fresh "t" in
  let Hrun := fresh "Hrun" in let HF := fresh "HF" in let Hd := fresh "Hd" in
  let a := fresh "a" in let f := fresh "f" in let Hf := fresh "Hf" in
  let w := fresh "w" in let ds := fresh "ds" in
  let Hins := fresh "Hins" in let Hlatch := fresh "Hlatch" in
  let Hhang := fresh "Hhang" in let Hquiet := fresh "Hquiet" in
  let Hpull := fresh "Hpull" in
  apply wp_run; intros r s t Hrun;
  pose proof (acquireImage_detail _ _ _ _ _ _ _ _ Hrun)
    as (Hins & Hlatch & Hhang & Hquiet & Hpull);
  apply acquireImage_shape in Hrun;
  destruct Hrun as (HF & [Hd|Hd] & [[a ->]|[(f & -> & Hf)| ->]]);
  destruct s as [w ds]; simpl in Hd; subst ds; cbv beta iota;
  try specialize (Hins _ eq_refl).

(** Find an event in a history, also inside a summarised phase. *)
Ltac in_trace :=
  lazymatch goal with
  | |- In _ (_ ++ _) => apply in_or_app; first [right; in_trace|left; in_trace]
  | |- In _ (_ :: _) => first [left; reflexivity|right; in_trace]
  | |- In _ _ => eassumption
  end.

(** At the end of the body, with the deferred closures still to run. *)
Ltac leave_order :=
  let o := fresh "o" in let tr := fresh "tr" in let Hl := fresh "Hl" in
  intros o tr Hl; subst; unfold leave in Hl; cbn [defers world observe] in Hl;
  try match type of Hl with
      | context [unwind ?h ?ds ?o0 ?w0] =>
          destruct (unwind h ds o0 w0) as [? ?] eqn:Hu
      end;
  apply pair_equal_spec in Hl; destruct Hl as [? ?]; subst o tr.

(** Symbolic execution of the body of [RunGhcrContainer] that keeps what
    each phase achieved. *)
Ltac run_body_detail :=
  unfold RunGhcrContainer_body, awaitContainer, onStatus, collectLogs;
  repeat first
    [ wp_step
    | tame_phase preflight_stage
    | tame_phase registryAuth_stage
    | acquire_detail
    | detail_phase stageInputs_detail
    | detail_phase collectOutputs_detail ].

Section RunExtras.

Context {W : Type}.
Variable host : Host W.
Variable lib : Lib.
Variable globals : Globals.

(** X13. A run that ends on a fatal error has run none of the deferred
    closures: its history holds no kill of the container and no close of
    the client, of the pull reader or of the log reader. *)
Theorem fatal_exit_runs_no_deferred_call :
  forall task image flags env hc ins outs (w : W) o tr m,
    RunGhcrContainer host lib globals task image flags env hc ins outs w = (o, tr) ->
    o = Exited m ->
    forall e, In e tr -> cleanup_call e = false.
Proof.
  intros task image flags env hc ins outs w o tr m Hrun. revert o tr Hrun.
  apply (RunGhcrContainer_wp host lib globals task image flags env hc ins outs w
    (fun x => forall o tr, x = (o, tr) -> o = Exited m ->
       forall e, In e tr -> cleanup_call e = false)).
  run_body.
  all: leave_intro; intros Ho ev Hev; try discriminate Ho.
  all: try (match goal with
            | Hs : ~ In (DeferLogsClose false) _ -> _ = Returned |- _ =>
                rewrite Hs in Ho by (simpl; intuition discriminate); discriminate Ho
            end).
  all: try (match goal with
            | Hp : _ \/ In (DeferLogsClose false) _ -> _ |- _ =>
                destruct Hp as [? Hp]; [right; simpl; auto|]; congruence
            end).
  all: in_cases Hev; subst; try reflexivity.
  all: match goal with
       | HF : Forall _ ?t, Hin : In _ ?t |- _ =>
           apply (proj1 (List.Forall_forall _ _) HF) in Hin
       end.
  all: by destruct ev.
Qed.

(** X14. A run that returns ends with Stop, Remove and then the
    deferred closures in the reverse of the order in which they were
    registered: the close of the log reader when the log was fetched, the
    kill of the container, which by then is removed, the close of the
    pull reader when the pull succeeded, and last the close of the
    client. *)
Theorem deferred_calls_run_in_reverse_order_on_return :
  forall task image flags env hc ins outs (w : W) o tr,
    RunGhcrContainer host lib globals task image flags env hc ins outs w = (o, tr) ->
    o = Returned ->
    exists pre id logsClose rk pullClose rc,
      tr = pre ++ [ContainerStop id None; ContainerRemove id None]
               ++ logsClose ++ [ContainerKill id "SIGKILL" rk]
               ++ pullClose ++ [ClientClose rc] /\
      (logsClose = [] \/ exists r, logsClose = [LogsClose r]) /\
      (pullClose = [] \/ exists r, pullClose = [PullClose r]).
Proof.
  intros task image flags env hc ins outs w o tr Hrun. revert o tr Hrun.
  apply (RunGhcrContainer_wp host lib globals task image flags env hc ins outs w
    (fun x => forall o tr, x = (o, tr) -> o = Returned ->
      exists pre id logsClose rk pullClose rc,
        tr = pre ++ [ContainerStop id None; ContainerRemove id None]
                 ++ logsClose ++ [ContainerKill id "SIGKILL" rk]
                 ++ pullClose ++ [ClientClose rc] /\
        (logsClose = [] \/ exists r, logsClose = [LogsClose r]) /\
        (pullClose = [] \/ exists r, pullClose = [PullClose r]))).
  run_body.
  all: leave_order; intros Ho; try discriminate Ho.
  all: first
    [ apply unwind_order in Hu; [|simpl; intuition discriminate]
    | apply unwind_spec in Hu; destruct Hu as (_ & _ & _ & Hp);
      destruct Hp as [? Hp]; [right; simpl; auto|]; congruence ].
  all: destruct Hu as [_ Hord].
  all: repeat match goal with
              | H : Forall2 _ (_ :: _) _ |- _ => inversion H; subst; clear H
              | H : Forall2 _ [] _ |- _ => inversion H; subst; clear H
              end.
  all: repeat match goal with
              | H : deferred_event _ ?y |- _ => destruct y; simpl in H; try contradiction
              end.
  all: match goal with
       | H : ?i = _ /\ ?sig = "SIGKILL" |- _ => destruct H as [? ?]; subst i sig
       end.
  all: match goal with
       | |- exists pre id lc rk pc rc,
             ((?X ++ [ContainerStop ?i None]) ++ [ContainerRemove _ None]) ++ ?U = _ /\ _ =>
           exists X, i; generalize X; intros pre0;
           lazymatch U with
           | [ContainerKill _ _ ?rk; ClientClose ?rc] => exists [], rk, [], rc
           | [ContainerKill _ _ ?rk; PullClose ?rp; ClientClose ?rc] =>
               exists [], rk, [PullClose rp], rc
           | [LogsClose ?rl; ContainerKill _ _ ?rk; ClientClose ?rc] =>
               exists [LogsClose rl], rk, [], rc
           | [LogsClose ?rl; ContainerKill _ _ ?rk; PullClose ?rp; ClientClose ?rc] =>
               exists [LogsClose rl], rk, [PullClose rp], rc
           end
       end.
  all: split; [rewrite <- !app_assoc; reflexivity|split; eauto].
Qed.

(** X15. The container is created only after the image has been
    inspected successfully, from exactly the image, flags and environment
    given, with stdin open and both output streams attached, and with the
    host configuration given. *)
Theorem container_is_created_from_the_inspected_image :
  forall task image flags env hc ins outs (w : W) o tr,
    RunGhcrContainer host lib globals task image flags env hc ins outs w = (o, tr) ->
    forall cfg hc' r,
      In (ContainerCreate cfg hc' r) tr ->
      cfg = mkConfig image flags env true true true /\ hc' = hc /\
      exists meta, In (ImageInspected image (Ok meta)) tr.
Proof.
  intros task image flags env hc ins outs w o tr Hrun. revert o tr Hrun.
  apply (RunGhcrContainer_wp host lib globals task image flags env hc ins outs w
    (fun x => forall o tr, x = (o, tr) -> forall cfg hc' r,
      In (ContainerCreate cfg hc' r) tr ->
      cfg = mkConfig image flags env true true true /\ hc' = hc /\
      exists meta, In (ImageInspected image (Ok meta)) tr)).
  run_body_detail.
  all: leave_intro; intros cfg hc' r Hc.
  all: in_cases Hc.
  all: injection Hc as <- <- <-.
  all: split; [reflexivity|split; [reflexivity|]].
  all: eexists; in_trace.
Qed.


(** X17. When the daemon cannot deliver the log of the container, the
    runner logs it at debug level and returns at once: no output is
    collected, Stop and Remove are not called, the deferred kill is
    issued, and the deferred close of the reader that was never delivered
    panics. *)
Theorem failed_log_fetch_returns_early :
  forall task image flags env hc ins outs (w : W) o tr,
    RunGhcrContainer host lib globals task image flags env hc ins outs w = (o, tr) ->
    forall id e,
      In (ContainerLogs id (Some e)) tr ->
      (exists p, o = Panicked p) /\
      (exists r, In (ContainerKill id "SIGKILL" r) tr) /\
      In (Log DebugLevel ("Failed to get container logs: " +:+ e)) tr /\
      (forall i p r, ~ In (CopyFrom i p r) tr) /\
      (forall i r, ~ In (ContainerStop i r) tr) /\
      (forall i r, ~ In (ContainerRemove i r) tr).
Proof.
  intros task image flags env hc ins outs w o tr Hrun. revert o tr Hrun.
  apply (RunGhcrContainer_wp host lib globals task image flags env hc ins outs w
    (fun x => forall o tr, x = (o, tr) -> forall id e,
      In (ContainerLogs id (Some e)) tr ->
      (exists p, o = Panicked p) /\
      (exists r, In (ContainerKill id "SIGKILL" r) tr) /\
      In (Log DebugLevel ("Failed to get container logs: " +:+ e)) tr /\
      (forall i p r, ~ In (CopyFrom i p r) tr) /\
      (forall i r, ~ In (ContainerStop i r) tr) /\
      (forall i r, ~ In (ContainerRemove i r) tr))).
  run_body.
  all: leave_intro; intros id0 err0 Hlg; in_cases Hlg; injection Hlg as <- <-.
  all: split; [apply Hpanic; right; simpl; auto|].
  all: split;
    [match goal with
     | Hk : forall id, In (DeferKill id) _ -> _ |- exists r, In (ContainerKill ?i _ r) _ =>
         destruct (Hk i) as [r Hr]; [simpl; auto|];
         exists r; apply in_or_app; by right
     end|].
  all: split; [in_find|].
  all: split; [intros i p r Hx; in_cases Hx|].
  all: split; intros i r Hx; in_cases Hx.
Qed.

Lemma Forall_staged_more id t t' ins :
  (forall e, In e t -> In e t') ->
  Forall (staged lib id t) ins -> Forall (staged lib id t') ins.
Proof. intros H. apply List.Forall_impl. intros x. by apply staged_mono. Qed.

Lemma Forall_collected_more id t t' outs :
  (forall e, In e t -> In e t') ->
  Forall (collected lib id t) outs -> Forall (collected lib id t') outs.
Proof. intros H. apply List.Forall_impl. intros x. by apply collected_mono. Qed.

(** X18. A run that returns started a container and has collected every
    requested output from it: for each, the destination was not there,
    the daemon delivered the archive, and every entry of the archive was
    written at its target. *)
Theorem a_run_that_returns_has_collected_every_output :
  forall task image flags env hc ins outs (w : W) o tr,
    RunGhcrContainer host lib globals task image flags env hc ins outs w = (o, tr) ->
    o = Returned ->
    exists id,
      In (ContainerStart id None) tr /\
      Forall (collected lib id tr) outs.
Proof.
  intros task image flags env hc ins outs w o tr Hrun. revert o tr Hrun.
  apply (RunGhcrContainer_wp host lib globals task image flags env hc ins outs w
    (fun x => forall o tr, x = (o, tr) -> o = Returned ->
      exists id, In (ContainerStart id None) tr /\ Forall (collected lib id tr) outs)).
  run_body_detail.
  all: leave_intro; intros Ho; try discriminate Ho.
  all: try (match goal with
            | Hp : _ \/ In (DeferLogsClose false) _ -> _ |- _ =>
                destruct Hp as [? Hp]; [right; simpl; auto|]; congruence
            end).
  all: eexists; split; [in_find|].
  all: match goal with
       | Hall : Forall (collected _ _ ?t) _ |- _ =>
           eapply Forall_collected_more; [|exact Hall]
       end.
  all: intros ev Hev; in_trace.
Qed.

(** X19. The container is started only after it was created with the
    host configuration given and every input was staged in it: archived
    and uploaded without error. *)
Theorem container_starts_only_after_every_input_is_staged :
  forall task image flags env hc ins outs (w : W) o tr,
    RunGhcrContainer host lib globals task image flags env hc ins outs w = (o, tr) ->
    forall id r,
      In (ContainerStart id r) tr ->
      (exists cfg, In (ContainerCreate cfg hc (Ok id)) tr) /\
      Forall (staged lib id tr) ins.
Proof.
  intros task image flags env hc ins outs w o tr Hrun. revert o tr Hrun.
  apply (RunGhcrContainer_wp host lib globals task image flags env hc ins outs w
    (fun x => forall o tr, x = (o, tr) -> forall id r,
      In (ContainerStart id r) tr ->
      (exists cfg, In (ContainerCreate cfg hc (Ok id)) tr) /\
      Forall (staged lib id tr) ins)).
  run_body_detail.
  all: leave_intro; intros id0 r0 Hst; in_cases Hst; injection Hst as <- <-.
  all: split; [eexists; in_find|].
  all: match goal with
       | Hall : Forall (staged _ _ ?t) _ |- _ =>
           eapply Forall_staged_more; [|exact Hall]
       end.
  all: intros ev Hev; in_trace.
Qed.

End RunExtras.


(* ===================================================================== *)
(** ** Image references                                                   *)
(* ===================================================================== *)

Module ImageLinkFacts.
Import ImageLink.


Lemma contains_app c s1 s2 : contains c (s1 +:+ s2) = contains c s1 || contains c s2.
Proof. induction s1 as [|x s1 IH]; simpl; [done|]. by rewrite IH, orb_assoc. Qed.

Lemma all_chars_without (P : ascii -> bool) (c : ascii) s :
  P c = false -> contains c s = true -> all_chars P s = false.
Proof.
  intros Hc. induction s as [|x s IH]; simpl; [done|].
  destruct (Ascii.eqb_spec x c) as [->|_]; simpl.
  - by rewrite Hc.
  - intros H. rewrite IH by done. apply andb_false_r.
Qed.

Lemma tag_without (c : ascii) s :
  name_char c = false -> contains c s = true -> tag s = false.
Proof. intros Hc Hs. destruct s; [done|]. by apply (all_chars_without _ c). Qed.

Lemma name_colon_tag_without (c : ascii) :
  name_char c = false -> Ascii.eqb c ":"%char = false ->
  forall s seen, contains c s = true -> name_colon_tag seen s = false.
Proof.
  intros Hc Hcolon. induction s as [|x s IH]; intros seen; simpl; [done|].
  destruct (Ascii.eqb_spec x c) as [->|_]; simpl.
  - intros _. by rewrite Hcolon, Hc.
  - intros H. destruct (Ascii.eqb x ":"%char).
    + rewrite (tag_without c) by done. apply andb_false_r.
    + rewrite IH by done. apply andb_false_r.
Qed.

(** A character outside the path class, followed later by a slash, rules
    the pattern out. *)
Lemma imageRefRegex_stray (c : ascii) s1 rest :
  path_char c = false -> contains "/" rest = true ->
  imageRefRegex (s1 +:+ String c rest) = false.
Proof.
  intros Hc Hrest.
  assert (Hslash : forall s seen, contains "/" s = true -> name_colon_tag seen s = false).
  { intros s seen. by apply name_colon_tag_without. }
  induction s1 as [|x s1 IH].
  - change (imageRefRegex ("" +:+ String c rest))
      with (name_colon_tag false (String c rest) || (path_char c && imageRefRegex rest)).
    rewrite Hc. simpl andb. rewrite orb_false_r.
    apply Hslash. simpl. rewrite Hrest. apply orb_true_r.
  - change (imageRefRegex (String x s1 +:+ String c rest))
      with (name_colon_tag false (String x (s1 +:+ String c rest))
            || (path_char x && imageRefRegex (s1 +:+ String c rest))).
    rewrite IH, andb_false_r, orb_false_r.
    apply Hslash. simpl.
    rewrite contains_app. simpl. rewrite Hrest. by rewrite !orb_true_r.
Qed.

Lemma imageRefRegex_colon s : imageRefRegex s = true -> contains ":" s = true.
Proof.
  assert (H : forall s seen, name_colon_tag seen s = true -> contains ":" s = true).
  { clear s. induction s as [|x s IH]; intros seen; simpl; [done|].
    destruct (Ascii.eqb x ":"%char); [done|].
    intros [_ H]%andb_true_iff. simpl. eauto. }
  induction s as [|x s IH]; [done|].
  change (imageRefRegex (String x s))
    with (name_colon_tag false (String x s) || (path_char x && imageRefRegex s)).
  intros [Hn|[_ Hr]%andb_true_iff]%orb_true_iff.
  - by apply (H (String x s) false).
  - simpl. rewrite (IH Hr). apply orb_true_r.
Qed.

(** The strings the pattern accepts. *)
Lemma name_colon_tag_iff s seen :
  name_colon_tag seen s = true <->
  exists name t,
    s = name +:+ ":" +:+ t /\
    all_chars name_char name = true /\ contains ":" name = false /\
    (seen = true \/ name <> "") /\
    t <> "" /\ all_chars name_char t = true.
Proof.
  revert seen. induction s as [|x s IH]; intros seen; simpl.
  - split; [done|]. intros (name & t & H & _). by destruct name.
  - destruct (Ascii.eqb_spec x ":"%char) as [->|Hx].
    + split.
      * intros [-> Ht]%andb_true_iff. exists "", s. repeat split; auto.
        -- by destruct s.
        -- by destruct s.
      * intros (name & t & H & Hn & Hc & Hseen & Ht & Hall).
        destruct name as [|y name]; simpl in *.
        -- injection H as ->. destruct Hseen as [->|?]; [|done]. by destruct t.
        -- injection H as <- _. simpl in Hc. discriminate Hc.
    + rewrite andb_true_iff, IH. split.
      * intros (Hxc & name & t & -> & Hn & Hc & _ & Ht & Hall).
        exists (String x name), t. simpl. rewrite Hxc, Hn.
        repeat split; auto.
        destruct (Ascii.eqb_spec x ":"%char); [done|]. simpl. exact Hc.
      * intros (name & t & H & Hn & Hc & Hseen & Ht & Hall).
        destruct name as [|y name]; simpl in *; injection H as -> ->; [done|].
        apply andb_true_iff in Hn as [Hy Hn]. split; [done|].
        exists name, t. repeat split; auto.
        destruct (y =? ":")%char; [done|]. exact Hc.
Qed.

Lemma name_has_no_colon name : all_chars name_char name = true -> contains ":" name = false.
Proof.
  destruct (contains ":" name) eqn:E; [|done].
  intros H. by rewrite (all_chars_without name_char ":" name) in H.
Qed.

Lemma imageRefRegex_iff s : imageRefRegex s = true <-> reference s.
Proof.
  unfold reference. induction s as [|x s IH].
  - split; [done|]. intros (dir & name & t & H & _). by destruct dir, name.
  - change (imageRefRegex (String x s))
      with (name_colon_tag false (String x s) || (path_char x && imageRefRegex s)).
    rewrite orb_true_iff, andb_true_iff, IH, name_colon_tag_iff. split.
    + intros [(name & t & H & Hn & _ & [?|Hne] & Ht & Hall)|
              (Hx & dir & name & t & -> & Hd & Hne & Hn & Ht & Hall)]; [done| |].
      * exists "", name, t. repeat split; auto.
      * exists (String x dir), name, t. simpl. rewrite Hx, Hd. repeat split; auto.
    + intros (dir & name & t & H & Hd & Hne & Hn & Ht & Hall).
      destruct dir as [|y dir]; simpl in H.
      * left. exists name, t. repeat split; auto. by apply name_has_no_colon.
      * right. injection H as -> ->. simpl in Hd. apply andb_true_iff in Hd as [Hy Hd].
        split; [done|]. exists dir, name, t. repeat split; auto.
Qed.

(** X20. [GetImageLink] returns the version unchanged when it is made
    of a path of letters, digits, dots and slashes, a name, a colon and a
    tag, and otherwise the image path, a colon and the version. *)
Theorem GetImageLink_keeps_a_full_reference_and_completes_anything_else version path :
  (reference version /\ GetImageLink version path = version) \/
  (~ reference version /\ GetImageLink version path = path +:+ ":" +:+ version).
Proof.
  unfold GetImageLink. destruct (imageRefRegex version) eqn:E.
  - left. split; [by apply imageRefRegex_iff|done].
  - right. split; [|done]. intros H%imageRefRegex_iff. congruence.
Qed.

(** X21. A version without a colon is taken for a tag: the result is
    the image path, a colon and the version. *)
Theorem GetImageLink_appends_a_bare_version version path :
  contains ":" version = false ->
  GetImageLink version path = path +:+ ":" +:+ version.
Proof.
  intros H. unfold GetImageLink.
  destruct (imageRefRegex version) eqn:E; [|done].
  apply imageRefRegex_colon in E. congruence.
Qed.

Lemma bare_version_witness :
  GetImageLink AnalyzerBindVersion AnalyzerDocker =
  "ghcr.io/seqrateam/seqra-jvm-sast/sast-analyzer:2025.09.01.27022f4".
Proof.
  exact (GetImageLink_appends_a_bare_version AnalyzerBindVersion AnalyzerDocker eq_refl).
Defined.

(** X22. A version in which a character outside the path class, such
    as a hyphen or an underscore, is followed later by a slash is not
    accepted as a reference, whatever else it holds: it is appended to
    the image path like a tag. The images of the project itself are
    such references. *)
Theorem GetImageLink_misreads_a_reference_with_a_hyphen_in_its_path
    (before after : string) (c : ascii) path :
  path_char c = false -> contains "/" after = true ->
  GetImageLink (before +:+ String c after) path =
  path +:+ ":" +:+ before +:+ String c after.
Proof.
  intros Hc Hs. unfold GetImageLink. by rewrite imageRefRegex_stray.
Qed.

Lemma own_image_witness :
  GetImageLink (AnalyzerDocker +:+ ":" +:+ AnalyzerBindVersion) AnalyzerDocker =
  "ghcr.io/seqrateam/seqra-jvm-sast/sast-analyzer:ghcr.io/seqrateam/seqra-jvm-sast/sast-analyzer:2025.09.01.27022f4".
Proof.
  exact (GetImageLink_misreads_a_reference_with_a_hyphen_in_its_path
           "ghcr.io/seqrateam/seqra" "jvm-sast/sast-analyzer:2025.09.01.27022f4" "-"
           AnalyzerDocker eq_refl eq_refl).
Defined.

End ImageLinkFacts.


(* ===================================================================== *)
(** ** Rule identifiers                                                   *)
(* ===================================================================== *)

Module SemgrepFacts.
Import Semgrep.


Lemma LastIndex_none c s : contains c s = false -> LastIndex s c = None.
Proof.
  induction s as [|x s IH]; simpl; [done|].
  intros [Hx Hs]%orb_false_iff. by rewrite IH, Hx.
Qed.

Lemma LastIndex_some c s : contains c s = true -> exists i, LastIndex s c = Some i.
Proof.
  induction s as [|x s IH]; simpl; [done|].
  destruct (LastIndex s c) as [i|] eqn:E; [by eexists|].
  destruct (Ascii.eqb x c); [by eexists|]. simpl. intros H. by destruct (IH H).
Qed.

Lemma LastIndex_app c p rest :
  contains c rest = false -> LastIndex (p +:+ String c rest) c = Some (String.length p).
Proof.
  intros H. induction p as [|x p IH]; simpl.
  - by rewrite LastIndex_none, Ascii.eqb_refl.
  - by rewrite IH.
Qed.

Lemma append_assoc (a b c : string) : a +:+ b +:+ c = (a +:+ b) +:+ c.
Proof.
  induction a as [|x a IH]; [reflexivity|].
  change (String x (a +:+ b +:+ c) = String x ((a +:+ b) +:+ c)). by rewrite IH.
Qed.

Lemma take_chars_app p rest : take_chars (String.length p) (p +:+ rest) = p.
Proof. induction p as [|x p IH]; simpl; [by destruct rest|by rewrite IH]. Qed.

Lemma drop_past p c rest : drop_chars (String.length p + 1) (p +:+ String c rest) = rest.
Proof. induction p as [|x p IH]; simpl; [by destruct rest|done]. Qed.

Lemma strip_space_clean s : (forall c, space c = true -> contains c s = false) -> strip_space s = s.
Proof.
  induction s as [|x s IH]; simpl; [done|]. intros H.
  destruct (space x) eqn:E.
  - specialize (H x E). simpl in H. by rewrite Ascii.eqb_refl in H.
  - rewrite IH; [done|]. intros c Hc. specialize (H c Hc). simpl in H.
    by apply orb_false_iff in H as [_ H].
Qed.

Lemma Split_one sep x : contains sep x = false -> Split x sep = [x].
Proof.
  induction x as [|c x IH]; simpl; [done|].
  intros [Hc Hx]%orb_false_iff. by rewrite Hc, IH.
Qed.

Lemma Split_cons sep x rest :
  contains sep x = false -> Split (x +:+ String sep rest) sep = x :: Split rest sep.
Proof.
  induction x as [|c x IH]; simpl.
  - by rewrite Ascii.eqb_refl.
  - intros [Hc Hx]%orb_false_iff. by rewrite Hc, IH.
Qed.

(** Splitting what was joined gives the elements back. *)
Lemma Split_Join sep x parts :
  Forall (fun d => contains sep d = false) (x :: parts) ->
  Split (Join (x :: parts) (String sep "")) sep = x :: parts.
Proof.
  revert x. induction parts as [|y parts IH]; intros x H.
  - simpl. apply Split_one. by inversion H.
  - change (Join (x :: y :: parts) (String sep ""))
      with (x +:+ String sep (Join (y :: parts) (String sep ""))).
    inversion H as [|? ? Hx Hrest]; subst.
    rewrite Split_cons by done. by rewrite IH.
Qed.

Lemma TrimLeft_no_prefix s c : HasPrefix (TrimLeft s c) (String c "") = false.
Proof.
  induction s as [|x s IH]; simpl; [done|].
  destruct (Ascii.eqb x c) eqn:E; [done|]. simpl. by rewrite E.
Qed.

Section Facts.

Context {W : Type}.

(** X23. An identifier that does not start with the path of the rules,
    or has no colon once that path is replaced, is returned as it is,
    with one line logged at error level. *)
Theorem GetSemgrepRuleId_leaves_a_foreign_id_alone :
  forall (seqraRuleId absRulesPath ruleStart : string) (s : St W),
    HasPrefix seqraRuleId absRulesPath = false \/
    contains ":" (ruleStart +:+ drop_chars (String.length absRulesPath) seqraRuleId) = false ->
    exists msg,
      GetSemgrepRuleId seqraRuleId absRulesPath ruleStart s =
      (Val seqraRuleId, s, [Log ErrorLevel msg]).
Proof.
  intros id abs start s H. unfold GetSemgrepRuleId.
  destruct (HasPrefix id abs) eqn:E.
  - destruct H as [H|H]; [done|]. rewrite (LastIndex_none _ _ H). by eexists.
  - by eexists.
Qed.

(** X24. For an identifier made of the path of the rules, a file below
    it, a colon and the rule's own id: the path of the rules is replaced
    by the start, white space is removed, the file name is dropped, the
    directories are joined with dots and the id is appended, and leading
    dots are removed; nothing is logged. *)
Theorem GetSemgrepRuleId_joins_the_directories_with_dots :
  forall (absRulesPath ruleStart rest file id : string) (dirs : list string) (s : St W),
    strip_space (ruleStart +:+ rest) = Join (dirs ++ [file]) "/" ->
    Forall (fun d => contains "/" d = false) (dirs ++ [file]) ->
    contains ":" id = false ->
    GetSemgrepRuleId (absRulesPath +:+ rest +:+ ":" +:+ id) absRulesPath ruleStart s =
    (Val (TrimLeft (Join dirs "." +:+ "." +:+ id) "."), s, []).
Proof.
  intros abs start rest file id dirs s Hpath Hdirs Hid. unfold GetSemgrepRuleId.
  rewrite HasPrefix_app, drop_chars_app.
  assert (Hnew : start +:+ rest +:+ ":" +:+ id = (start +:+ rest) +:+ String ":" id).
  { apply append_assoc. }
  rewrite Hnew, LastIndex_app by done.
  rewrite take_chars_app, drop_past, Hpath.
  destruct (dirs ++ [file]) as [|x parts] eqn:E; [by destruct dirs|].
  rewrite Split_Join by done. rewrite <- E, removelast_last. reflexivity.
Qed.

(** X25. [GetSemgrepRuleId] always returns and changes nothing: either
    it gives the identifier back with one line logged at error level, or
    it logs nothing and the identifier it gives does not start with a
    dot. *)
Theorem GetSemgrepRuleId_never_fails_and_never_leads_with_a_dot :
  forall (seqraRuleId absRulesPath ruleStart : string) (s : St W),
    exists x t,
      GetSemgrepRuleId seqraRuleId absRulesPath ruleStart s = (Val x, s, t) /\
      ((x = seqraRuleId /\ exists msg, t = [Log ErrorLevel msg]) \/
       (t = [] /\ HasPrefix x "." = false)).
Proof.
  intros id abs start s. unfold GetSemgrepRuleId.
  destruct (HasPrefix id abs); [|eexists _, _; split; [done|left; eauto]].
  destruct (LastIndex _ _) as [i|]; [|eexists _, _; split; [done|left; eauto]].
  eexists _, _. split; [done|]. right. split; [done|]. apply TrimLeft_no_prefix.
Qed.

(** X26. [GetRuleIdPathStart] cuts the working directory off the rules
    path as a string, not as a path: whatever follows it is returned,
    less one trailing separator, also when the working directory ends
    inside a component of the path. *)
Theorem GetRuleIdPathStart_cuts_the_working_directory_as_a_string :
  forall (workDir below : string) (s : St W),
    workDir +:+ below <> "" ->
    GetRuleIdPathStart (W:=W) (workDir, None) (workDir +:+ below) s =
    (Val (TrimSuffix below PathSeparator), s, []).
Proof.
  intros workDir below s Hne. unfold GetRuleIdPathStart.
  destruct (String.eqb_spec (workDir +:+ below) "") as [|_]; [done|].
  by rewrite TrimPrefix_app.
Qed.

End Facts.

(** X23 at an identifier that is no path. *)
Lemma foreign_id_witness :
  exists msg,
    GetSemgrepRuleId (W:=unit) "reflected-xss" "/work/rules" "/rules" (mkSt tt []) =
    (Val "reflected-xss", mkSt tt [], [Log ErrorLevel msg]).
Proof.
  exact (GetSemgrepRuleId_leaves_a_foreign_id_alone
           "reflected-xss" "/work/rules" "/rules" (mkSt tt []) (or_introl eq_refl)).
Defined.

(** X24 at a rule of the file [java/security/xss.yaml] of the rules in
    [/work/rules], run from [/work]. *)
Lemma dotted_id_witness :
  GetSemgrepRuleId (W:=unit) "/work/rules/java/security/xss.yaml:reflected-xss"
    "/work/rules" "/rules" (mkSt tt []) =
  (Val "rules.java.security.reflected-xss", mkSt tt [], []).
Proof.
  exact (GetSemgrepRuleId_joins_the_directories_with_dots
           "/work/rules" "/rules" "/java/security/xss.yaml" "xss.yaml" "reflected-xss"
           [""; "rules"; "java"; "security"] (mkSt tt []) eq_refl
           ltac:(repeat constructor) eq_refl).
Defined.

(** X26 at a rules directory beside the working directory [/work]. *)
Lemma string_cut_witness :
  GetRuleIdPathStart (W:=unit) ("/work", None) "/work2/rules/" (mkSt tt []) =
  (Val "2/rules", mkSt tt [], []).
Proof.
  exact (GetRuleIdPathStart_cuts_the_working_directory_as_a_string
           "/work" "2/rules/" (mkSt tt []) ltac:(discriminate)).
Defined.

End SemgrepFacts.


(* ===================================================================== *)
(** ** Concrete paths and runs                                            *)
(* ===================================================================== *)

Module Checks.
Import Demo.

(** Find an event in a computed history. *)
Ltac found := vm_compute; repeat (first [left; reflexivity|right]).

(** X8 at a class file on a disk that fails to close it: extraction
    reports no error. *)
Lemma close_error_witness :
  let run := handleRegularFile (failing_close ok) (lib None) "cafebabe"
               "/host/out/classes/A.class" class_file (mkSt [] []) in
  In (FileClose "/host/out/classes/A.class" (Some "input/output error")) run.2 /\
  exists cr cl,
    run.2 = [MkdirAll (dir "/host/out/classes/A.class") 493 None;
             Create "/host/out/classes/A.class" None;
             Copy "/host/out/classes/A.class" "cafebabe" cr;
             FileClose "/host/out/classes/A.class" cl] /\
    run.1.1 = Val (match cr with
                   | Some e => Some ("failed to copy contents to "
                                       +:+ "/host/out/classes/A.class" +:+ ": " +:+ e)
                   | None => None
                   end).
Proof.
  cbv zeta. split; [found|].
  apply (handleRegularFile_closes_the_file_and_drops_the_close_error
           (failing_close ok) (lib None) "cafebabe" "/host/out/classes/A.class" class_file
           (mkSt [] []) _
           (handleRegularFile (failing_close ok) (lib None) "cafebabe"
              "/host/out/classes/A.class" class_file (mkSt [] [])).1.2 _).
  - vm_compute. reflexivity.
  - found.
Defined.

(** X9 at the build directory of the README. *)
Lemma collected_output_witness :
  let run := CopyFileFromContainer (scripted ok) (lib None) container "/data/build" "/host/out"
               (mkSt [] []) in
  run.1.1 = Val None /\
  exists e tr stat mid,
    run.2 = Stat "/host/out" (Some e) :: CopyFrom container "/data/build" (Ok (tr, stat))
              :: mid ++ [ReaderClose None] /\
    (forall hdr c, In (Entry hdr c) tr ->
       entry_written (entry_target (lib None) (StatName stat) "/host/out" (IsDir stat) hdr)
                     hdr c mid) /\
    (forall x, In x mid -> entry_event (lib None) tr (StatName stat) "/host/out" (IsDir stat) x).
Proof.
  cbv zeta. split; [vm_compute; reflexivity|].
  apply (CopyFileFromContainer_reports_success_only_when_all_is_written
           (scripted ok) (lib None) container "/data/build" "/host/out" (mkSt [] [])
           (CopyFileFromContainer (scripted ok) (lib None) container "/data/build" "/host/out"
              (mkSt [] [])).1.2).
  vm_compute. reflexivity.
Defined.

(** X10 at a destination that is there already. *)
Lemma existing_destination_witness :
  let run := CopyFileFromContainer (scripted ok) (lib None) container "/data/build" "/host/out"
               (mkSt ["/host/out"] []) in
  run.2 = [Stat "/host/out" None] /\
  run.1.1 = Val (Some ("file already exists: " +:+ "/host/out")).
Proof.
  cbv zeta.
  apply (proj1 (CopyFileFromContainer_never_overwrites_and_always_closes_the_reader
                  (scripted ok) (lib None) container "/data/build" "/host/out"
                  (mkSt ["/host/out"] []) _ _ _ ltac:(vm_compute; reflexivity))).
  found.
Defined.

(** X11 at the project directory of the README. *)
Lemma staged_input_witness :
  let run := CopyToContainer (scripted ok) (lib None) container "/host/proj" "/data/project"
               (mkSt ["/host/proj"] []) in
  run.1.1 = Val None /\
  run.2 = [Stat "/host/proj" None; TarWithOptions "/host" "proj" "/data/project" None;
           CopyTo container "/" None; TarClose None].
Proof.
  cbv zeta. split; [vm_compute; reflexivity|].
  apply (proj1 (proj1 (CopyToContainer_success_is_four_calls
                         (scripted ok) (lib None) container "/host/proj" "/data/project"
                         (mkSt ["/host/proj"] []) _ _ _ ltac:(vm_compute; reflexivity)))).
  vm_compute. reflexivity.
Defined.

(** X12 at a project directory that is not there. *)
Lemma missing_input_witness :
  let run := CopyToContainer (scripted ok) (lib None) container "/host/proj" "/data/project"
               (mkSt [] []) in
  run.2 = [Stat "/host/proj" (Some "no such file or directory")] /\
  run.1.1 = Val (Some ("cannot stat local path: " +:+ "no such file or directory")).
Proof.
  cbv zeta.
  apply (proj1 (CopyToContainer_failures
                  (scripted ok) (lib None) container "/host/proj" "/data/project"
                  (mkSt [] []) _ _ _ ltac:(vm_compute; reflexivity))).
  found.
Defined.

(** X13 at a container that exits with status 3. *)
Lemma fatal_exit_witness :
  let run := Demo.run exit3 None "" in
  run.1 = Exited (NonZeroExitCode 3) /\
  forall e, In e run.2 -> cleanup_call e = false.
Proof.
  cbv zeta.
  assert (Ho : (Demo.run exit3 None "").1 = Exited (NonZeroExitCode 3)) by (by vm_compute).
  split; [exact Ho|].
  exact (fatal_exit_runs_no_deferred_call
           (scripted exit3) (lib None) (config "") _ _ _ _ _ _ _ _ _ _ _
           (surjective_pairing (Demo.run exit3 None "")) Ho).
Defined.

(** X14 at the run of the README. *)
Lemma deferred_order_witness :
  let run := Demo.run ok None "" in
  run.1 = Returned /\
  exists pre id logsClose rk pullClose rc,
    run.2 = pre ++ [ContainerStop id None; ContainerRemove id None]
                ++ logsClose ++ [ContainerKill id "SIGKILL" rk]
                ++ pullClose ++ [ClientClose rc] /\
    (logsClose = [] \/ exists r, logsClose = [LogsClose r]) /\
    (pullClose = [] \/ exists r, pullClose = [PullClose r]).
Proof.
  cbv zeta.
  assert (Ho : (Demo.run ok None "").1 = Returned) by (by vm_compute).
  split; [exact Ho|].
  exact (deferred_calls_run_in_reverse_order_on_return
           (scripted ok) (lib None) (config "") _ _ _ _ _ _ _ _ _ _
           (surjective_pairing (Demo.run ok None "")) Ho).
Defined.

(** X15 at the run of the README. *)
Lemma created_container_witness :
  let run := Demo.run ok None "" in
  exists meta, In (ImageInspected image (Ok meta)) run.2.
Proof.
  cbv zeta.
  assert (Hc : In (ContainerCreate
                     (mkConfig image ["--project-root-dir"; "/data/project"]
                               ["CONTAINER_UID=1000"] true true true)
                     (mkHostConfig []) (Ok container)) (Demo.run ok None "").2) by found.
  exact (proj2 (proj2 (container_is_created_from_the_inspected_image
                         (scripted ok) (lib None) (config "") _ _ _ _ _ _ _ _ _ _
                         (surjective_pairing (Demo.run ok None "")) _ _ _ Hc))).
Defined.


(** X17 at a daemon that cannot deliver the log. *)
Lemma failed_log_fetch_witness :
  let run := Demo.run no_logs None "" in
  (exists p, run.1 = Panicked p) /\
  (exists r, In (ContainerKill container "SIGKILL" r) run.2) /\
  In (Log DebugLevel ("Failed to get container logs: " +:+ "No such container: c0ffee")) run.2 /\
  (forall i p r, ~ In (CopyFrom i p r) run.2) /\
  (forall i r, ~ In (ContainerStop i r) run.2) /\
  (forall i r, ~ In (ContainerRemove i r) run.2).
Proof.
  cbv zeta.
  assert (Hl : In (ContainerLogs container (Some "No such container: c0ffee"))
                  (Demo.run no_logs None "").2) by found.
  exact (failed_log_fetch_returns_early
           (scripted no_logs) (lib None) (config "") _ _ _ _ _ _ _ _ _ _
           (surjective_pairing (Demo.run no_logs None "")) _ _ Hl).
Defined.

(** X18 at the run of the README. *)
Lemma collected_outputs_witness :
  let run := Demo.run ok None "" in
  run.1 = Returned /\
  exists id,
    In (ContainerStart id None) run.2 /\
    Forall (collected (lib None) id run.2) [("/data/build", "/host/out")].
Proof.
  cbv zeta.
  assert (Ho : (Demo.run ok None "").1 = Returned) by (by vm_compute).
  split; [exact Ho|].
  exact (a_run_that_returns_has_collected_every_output
           (scripted ok) (lib None) (config "") _ _ _ _ _ _ _ _ _ _
           (surjective_pairing (Demo.run ok None "")) Ho).
Defined.

(** X19 at the run of the README. *)
Lemma staged_inputs_witness :
  let run := Demo.run ok None "" in
  (exists cfg, In (ContainerCreate cfg (mkHostConfig []) (Ok container)) run.2) /\
  Forall (staged (lib None) container run.2) [("/host/proj", "/data/project")].
Proof.
  cbv zeta.
  assert (Hs : In (ContainerStart container None) (Demo.run ok None "").2) by found.
  exact (container_starts_only_after_every_input_is_staged
           (scripted ok) (lib None) (config "") _ _ _ _ _ _ _ _ _ _
           (surjective_pairing (Demo.run ok None "")) _ _ Hs).
Defined.

End Checks.
